(** * dela: instance contracts of the byzcoin ledger

    A shallow embedding of [ledger/byzcoin/contract/task.go]: the three
    client tasks with their fingerprints, and the server task that consumes
    a client task against an inventory page.  The test doubles of the
    [fake] package that the fingerprint code is exercised with are embedded
    as well.

    Go values are modelled as follows.
    - [[]byte] is [list byte]; a Go [string] is a [string], and
      [[]byte(s)] is [list_byte_of_string s].
    - An [error] is the text of its message; [xerrors.Errorf] with a
      trailing [%v] of an error is concatenation.  A function returning
      [(T, error)] returns a [result T].
    - Code that talks to a collaborator (a writer, a page, a contract, an
      access control) runs in a state-and-error monad; the state is the
      collaborator's own state, and for the server task also the list of
      the calls made so far, in the manner of [fake.Call].
    - A contract is a pair of functions of the context it is handed; the
      context carries the page, which a contract can read.
    - An [*Instance] is a pointer into a store of instances that the page,
      the contracts and the server task share.  [ctx.Read] answers the
      pointer the page holds under the key; the assignments of the Go code
      through it, to [Value] in an invoke and to [Deleted] in a delete,
      change the instance in the store, for every holder of the pointer
      and before [Consume] writes anything; [page.Write] hands the page the
      pointer. *)

From Stdlib Require Import Strings.Byte ZArith.
From stdpp Require Import base option list strings countable functions gmap pretty.

Open Scope string_scope.
Open Scope list_scope.

Abbreviation bytes := (list byte).

Definition error := string.

Inductive result (A : Type) : Type :=
| Ok (a : A)
| Err (e : error).
Arguments Ok {A} a.
Arguments Err {A} e.

(** [xerrors.Errorf(prefix + "%v", err)] *)
Definition Errorf (prefix : string) (err : error) : error := prefix +:+ err.

(** A Go function that can panic returns an [outcome]. *)
Inductive outcome (A : Type) : Type :=
| Returns (a : A)
| Panics (what : string).
Arguments Returns {A} a.
Arguments Panics {A} what.

(** [int] is taken to be 64 bits wide: arithmetic on it wraps around. *)
Definition int_wrap (z : Z) : Z := ((z + 2 ^ 63) mod 2 ^ 64 - 2 ^ 63)%Z.

(** [uint32(z)] *)
Definition uint32 (z : Z) : Z := (z mod 2 ^ 32)%Z.

(** [byte(z)] and the number a byte stands for. *)
Definition byte_of_Z (z : Z) : byte :=
  default Byte.x00 (Byte.of_N (Z.to_N (z mod 256))).

Definition Z_of_byte (b : byte) : Z := Z.of_N (Byte.to_N b).

(** [l[i]], which panics out of range. *)
Definition at_index {A} (l : list A) (i : Z) : outcome A :=
  if ((i <? 0) || (Z.of_nat (length l) <=? i))%Z
  then Panics "index out of range"
  else match l !! Z.to_nat i with
       | Some a => Returns a
       | None => Panics "index out of range"
       end.

(** [binary.LittleEndian.PutUint32(b, v)] and [binary.LittleEndian.Uint32(b)] *)
Definition PutUint32 (b : bytes) (v : Z) : outcome bytes :=
  if (length b <? 4)%nat then Panics "index out of range"
  else Returns ([byte_of_Z v; byte_of_Z (v ≫ 8); byte_of_Z (v ≫ 16); byte_of_Z (v ≫ 24)]
                ++ drop 4 b).

Definition Uint32 (b : bytes) : outcome Z :=
  match b with
  | b0 :: b1 :: b2 :: b3 :: _ =>
    Returns (Z.lor (Z.lor (Z.lor (Z_of_byte b0) (Z_of_byte b1 ≪ 8)) (Z_of_byte b2 ≪ 16))
               (Z_of_byte b3 ≪ 24))
  | _ => Panics "index out of range"
  end.

(** ** Effects *)

Definition M (S A : Type) : Type := S → result A * S.

Definition ret {S A} (a : A) : M S A := λ s, (Ok a, s).

Definition fail {S A} (e : error) : M S A := λ s, (Err e, s).

Definition bind {S A B} (c : M S A) (k : A → M S B) : M S B :=
  λ s, match c s with
       | (Ok a, s') => k a s'
       | (Err e, s') => (Err e, s')
       end.

Notation "'let*' x := c 'in' k" := (bind c (λ x, k))
  (at level 10, x pattern, c at level 100, k at level 200).

(** [v, err := c; if err != nil { return f(err) }] *)
Definition or_return {S A} (f : error → error) (c : M S A) : M S A :=
  λ s, match c s with
       | (Ok a, s') => (Ok a, s')
       | (Err e, s') => (Err (f e), s')
       end.

(** [v, err := c] with both outcomes kept for a later test of [err]. *)
Definition attempt {S A} (c : M S A) : M S (result A) :=
  λ s, (Ok (c s).1, (c s).2).

Definition is_ok {A} (r : result A) : bool :=
  match r with Ok _ => true | Err _ => false end.

(** The outcomes of a sequence of calls on one collaborator, in order. *)
Fixpoint each {S A} (cs : list (M S A)) : S → list (result A) * S :=
  λ s, match cs with
       | [] => ([], s)
       | c :: cs => let '(r, s1) := c s in
                    let '(rs, s2) := each cs s1 in
                    (r :: rs, s2)
       end.

(** [fmt.Stringer]: what [%v] prints for a value. *)
Class Stringer (A : Type) := String_of : A → string.

#[global] Instance byte_eq_dec : EqDecision byte := Byte.byte_eq_dec.

#[global] Instance byte_countable : Countable byte :=
  inj_countable Byte.to_N Byte.of_N Byte.of_to_N.

(** ** Package [encoding] *)

Module encoding.

(** [io.Writer].  The byte count that [Write] also returns is dropped: no
    caller in this package looks at it. *)
Class Writer (W : Type) := Write : bytes → M W unit.

(** A writer that remembers, next to the writer it forwards to, the bytes
    that writer accepted. *)
Record Recorder (W : Type) : Type := mkRecorder { sink : W; output : bytes }.
Arguments mkRecorder {W} sink output.
Arguments sink {W} r.
Arguments output {W} r.

#[global] Instance Recorder_Writer {W} `{!Writer W} : Writer (Recorder W) :=
  λ p r, match Write p (sink r) with
         | (Ok tt, w) => (Ok tt, mkRecorder w (output r ++ p))
         | (Err e, w) => (Err e, mkRecorder w (output r))
         end.

(** [emitted r r' fp]: between [r] and [r'] the writer accepted exactly the
    bytes [fp]. *)
Definition emitted {W} (r r' : Recorder W) (fp : bytes) : Prop :=
  output r' = output r ++ fp.

(** Modelled from the spec: [encoding.ProtoMarshaler] is not under src/.
    Of the interface only [MarshalStable] is used here: the stable
    serializer either fails or yields the canonical bytes of the message,
    which it hands to the writer.  It hands them over in one [Write]; in
    how many writes a serializer does so the spec leaves open. *)
Record ProtoMarshaler (Message : Type) : Type :=
  { stable : Message → result bytes }.
Arguments stable {Message} e m : rename.

Definition MarshalStable {Message W} `{!Writer W}
    (e : ProtoMarshaler Message) (pb : Message) : M W unit :=
  match stable e pb with
  | Err err => fail err
  | Ok bs => Write bs
  end.

End encoding.

(** ** Package [fake] *)

Module fake.

(** [Call]: the arguments of every call, oldest first.  A nil [*Call] is
    [None]. *)
Definition Call (A : Type) : Type := list (list A).

Definition Call_Len {A} (c : option (Call A)) : Z :=
  match c with
  | None => 0
  | Some calls => Z.of_nat (length calls)
  end.

Definition Call_Add {A} (c : option (Call A)) (args : list A) : option (Call A) :=
  match c with
  | None => None
  | Some calls => Some (calls ++ [args])
  end.

(** [Hash]: a writer that succeeds [delay] times and answers [err] from
    then on. *)
Record Hash : Type := mkHash
  { delay : Z; err : option error; calls : option (Call bytes) }.

Definition NewBadHash : Hash :=
  mkHash 0 (Some "fake error") None.

Definition NewBadHashWithDelay (delay : Z) : Hash :=
  mkHash delay (Some "fake error") None.

Definition Hash_Write (in_ : bytes) : M Hash unit :=
  λ h,
    let recorded := Call_Add (calls h) [in_] in
    if (0 <? delay h)%Z
    then (Ok tt, mkHash (delay h - 1) (err h) recorded)
    else (match err h with None => Ok tt | Some e => Err e end,
          mkHash (delay h) (err h) recorded).

#[global] Instance Hash_Writer : encoding.Writer Hash := Hash_Write.

(** [BadMarshalStableEncoder] *)
Definition BadMarshalStableEncoder (Message : Type) : encoding.ProtoMarshaler Message :=
  {| encoding.stable := λ _, Err "fake error" |}.

(** [Call.Get(n, i)]: nil on a nil [*Call]. *)
Definition Call_Get {A} (c : option (Call A)) (n i : Z) : outcome (option A) :=
  match c with
  | None => Returns None
  | Some calls =>
    match at_index calls n with
    | Panics what => Panics what
    | Returns args =>
      match at_index args i with
      | Panics what => Panics what
      | Returns a => Returns (Some a)
      end
    end
  end.

Module Address.

(** [Address]: an index, and the error its marshaling answers. *)
Record t : Type := mk { index : Z; err : option error }.

End Address.

(** [mino.Address]: an address of this package or one of another
    implementation. *)
Inductive mino_Address (F : Type) : Type :=
| Fake (a : Address.t)
| Foreign (f : F).
Arguments Fake {F} a.
Arguments Foreign {F} f.

(** [Equal] of the addresses of another implementation. *)
Class ForeignEqual (F : Type) := foreign_Equal : F → mino_Address F → bool.

Definition NewAddress (index : Z) : Address.t := Address.mk index None.

Definition NewBadAddress : Address.t := Address.mk 0 (Some "fake error").

Definition Address_Equal {F} (a : Address.t) (o : mino_Address F) : bool :=
  match o with
  | Fake other => (Address.index other =? Address.index a)%Z
  | Foreign _ => false
  end.

(** [MarshalText] answers the buffer and the error of the address. *)
Definition Address_MarshalText (a : Address.t) : outcome (bytes * option error) :=
  match PutUint32 (replicate 4 Byte.x00) (uint32 (Address.index a)) with
  | Panics what => Panics what
  | Returns buffer => Returns (buffer, Address.err a)
  end.

Definition Address_String (a : Address.t) : string :=
  "fake.Address[" +:+ pretty (Address.index a) +:+ "]".

(** [address.Equal(o)] for an address of either kind. *)
Definition mino_Equal {F} `{!ForeignEqual F} (a o : mino_Address F) : bool :=
  match a with
  | Fake a => Address_Equal a o
  | Foreign f => foreign_Equal f o
  end.

(** [AddressFactory.FromText] *)
Definition AddressFactory_FromText (text : bytes) : outcome Address.t :=
  if (4 <=? length text)%nat
  then match Uint32 text with
       | Panics what => Panics what
       | Returns index => Returns (Address.mk index None)
       end
  else Returns (Address.mk 0 None).

Module AddressIterator.

Record t (F : Type) : Type := mk { addrs : list (mino_Address F); index : Z }.
Arguments mk {F} addrs index.
Arguments addrs {F} i : rename.
Arguments index {F} i : rename.

End AddressIterator.

Definition NewAddressIterator {F} (addrs : list (mino_Address F)) : AddressIterator.t F :=
  AddressIterator.mk addrs 0.

Definition AddressIterator_Seek {F} (i : AddressIterator.t F) (index : Z)
  : AddressIterator.t F :=
  AddressIterator.mk (AddressIterator.addrs i) index.

Definition AddressIterator_HasNext {F} (i : AddressIterator.t F) : bool :=
  (AddressIterator.index i <? Z.of_nat (length (AddressIterator.addrs i)))%Z.

(** [GetNext]: the next address, or nil, and the iterator as it is left. *)
Definition AddressIterator_GetNext {F} (i : AddressIterator.t F)
  : outcome (option (mino_Address F) * AddressIterator.t F) :=
  if AddressIterator_HasNext i
  then match at_index (AddressIterator.addrs i) (AddressIterator.index i) with
       | Panics what => Panics what
       | Returns res =>
         Returns (Some res,
                  AddressIterator.mk (AddressIterator.addrs i)
                    (int_wrap (AddressIterator.index i + 1)))
       end
  else Returns (None, i).

(** [GetNext] called [n] times: what the calls answer, in order. *)
Fixpoint AddressIterator_next {F} (n : nat) (i : AddressIterator.t F)
  : outcome (list (option (mino_Address F)) * AddressIterator.t F) :=
  match n with
  | O => Returns ([], i)
  | S n =>
    match AddressIterator_GetNext i with
    | Panics what => Panics what
    | Returns (res, i1) =>
      match AddressIterator_next n i1 with
      | Panics what => Panics what
      | Returns (rest, i2) => Returns (res :: rest, i2)
      end
    end
  end.

(** [crypto.AggregateSigner]: a signer made by a generator, the
    [signerWrapper] of a public key, or nil. *)
Inductive AggregateSigner (S PK : Type) : Type :=
| Generated (s : S)
| signerWrapper (pubkey : PK)
| NilSigner.
Arguments Generated {S PK} s.
Arguments signerWrapper {S PK} pubkey.
Arguments NilSigner {S PK}.

(** [GetPublicKey] of the signers a generator makes. *)
Class HasPublicKey (S PK : Type) := generated_GetPublicKey : S → PK.

Definition Signer_GetPublicKey {S PK} `{!HasPublicKey S PK}
    (s : AggregateSigner S PK) : outcome PK :=
  match s with
  | Generated s => Returns (generated_GetPublicKey s)
  | signerWrapper pubkey => Returns pubkey
  | NilSigner => Panics "nil pointer dereference"
  end.

Module PublicKeyIterator.

Record t (S PK : Type) : Type := mk { signers : list (AggregateSigner S PK); index : Z }.
Arguments mk {S PK} signers index.
Arguments signers {S PK} i : rename.
Arguments index {S PK} i : rename.

End PublicKeyIterator.

Definition PublicKeyIterator_Seek {S PK} (i : PublicKeyIterator.t S PK) (index : Z)
  : PublicKeyIterator.t S PK :=
  PublicKeyIterator.mk (PublicKeyIterator.signers i) index.

Definition PublicKeyIterator_HasNext {S PK} (i : PublicKeyIterator.t S PK) : bool :=
  (PublicKeyIterator.index i <? Z.of_nat (length (PublicKeyIterator.signers i)))%Z.

Definition PublicKeyIterator_GetNext {S PK} `{!HasPublicKey S PK}
    (i : PublicKeyIterator.t S PK) : outcome (option PK * PublicKeyIterator.t S PK) :=
  if PublicKeyIterator_HasNext i
  then match at_index (PublicKeyIterator.signers i) (PublicKeyIterator.index i) with
       | Panics what => Panics what
       | Returns res =>
         match Signer_GetPublicKey res with
         | Panics what => Panics what
         | Returns pubkey =>
           Returns (Some pubkey,
                    PublicKeyIterator.mk (PublicKeyIterator.signers i)
                      (int_wrap (PublicKeyIterator.index i + 1)))
         end
       end
  else Returns (None, i).

Fixpoint PublicKeyIterator_next {S PK} `{!HasPublicKey S PK} (n : nat)
    (i : PublicKeyIterator.t S PK) : outcome (list (option PK) * PublicKeyIterator.t S PK) :=
  match n with
  | O => Returns ([], i)
  | Datatypes.S n =>
    match PublicKeyIterator_GetNext i with
    | Panics what => Panics what
    | Returns (res, i1) =>
      match PublicKeyIterator_next n i1 with
      | Panics what => Panics what
      | Returns (rest, i2) => Returns (res :: rest, i2)
      end
    end
  end.

(** [viewchange.Player] and [viewchange.ChangeSet], as [Apply] uses them:
    the players to add, and the positions to remove one after the other. *)
Module Player.

Record t (F PK : Type) : Type := mk { Address : mino_Address F; PublicKey : PK }.
Arguments mk {F PK} Address PublicKey.
Arguments Address {F PK} player : rename.
Arguments PublicKey {F PK} player : rename.

End Player.

Module ChangeSet.

Record t (F PK : Type) : Type := mk { Add : list (Player.t F PK); Remove : list Z }.
Arguments mk {F PK} Add Remove.
Arguments Add {F PK} cs : rename.
Arguments Remove {F PK} cs : rename.

End ChangeSet.

(** What an authority hands to [Call.Add]. *)
Inductive recorded (F PK : Type) : Type :=
| Text (s : string)
| Changes (cs : ChangeSet.t F PK).
Arguments Text {F PK} s.
Arguments Changes {F PK} cs.

Module CollectiveAuthority.

(** The addresses of an authority are not nil: every function that makes
    an authority fills them.  The [Call] is held by value; in the Go code
    it is shared with the authority a new one was made from. *)
Record t (F S PK : Type) : Type := mk
  { addrs : list (mino_Address F);
    signers : list (AggregateSigner S PK);
    Call : option (Call (recorded F PK)) }.
Arguments mk {F S PK} addrs signers Call.
Arguments addrs {F S PK} ca : rename.
Arguments signers {F S PK} ca : rename.
Arguments Call {F S PK} ca : rename.

End CollectiveAuthority.

(** [g()] called [n] times, [g] being a generator with a state of its own. *)
Fixpoint generate {G S} (g : G → S * G) (n : nat) : G → list S * G :=
  λ γ, match n with
       | O => ([], γ)
       | Datatypes.S n => let '(s, γ1) := g γ in
                          let '(rest, γ2) := generate g n γ1 in
                          (s :: rest, γ2)
       end.

Definition NewAuthorityWithBase {F G S PK} (base n : Z) (g : G → S * G)
  : G → outcome (CollectiveAuthority.t F S PK * G) :=
  λ γ, if (n <? 0)%Z then Panics "makeslice: len out of range"
       else let '(signers, γ1) := generate g (Z.to_nat n) γ in
            Returns (CollectiveAuthority.mk
                       ((λ i : nat, Fake (Address.mk (int_wrap (Z.of_nat i + base)) None))
                          <$> seq 0 (Z.to_nat n))
                       (Generated <$> signers)
                       None,
                     γ1).

Definition NewAuthority {F G S PK} (n : Z) (g : G → S * G)
  : G → outcome (CollectiveAuthority.t F S PK * G) :=
  NewAuthorityWithBase 0 n g.

(** [NewAuthorityFromMino]; [GetAddress] is the one of the instances. *)
Definition NewAuthorityFromMino {F G S PK I} (GetAddress : I → mino_Address F)
    (g : G → S * G) (instances : list I) : G → CollectiveAuthority.t F S PK * G :=
  λ γ, let '(signers, γ1) := generate g (length instances) γ in
       (CollectiveAuthority.mk (GetAddress <$> instances) (Generated <$> signers) None, γ1).

Definition CollectiveAuthority_GetAddress {F S PK} (ca : CollectiveAuthority.t F S PK)
    (index : Z) : outcome (mino_Address F) :=
  at_index (CollectiveAuthority.addrs ca) index.

Definition CollectiveAuthority_GetSigner {F S PK} (ca : CollectiveAuthority.t F S PK)
    (index : Z) : outcome (AggregateSigner S PK) :=
  at_index (CollectiveAuthority.signers ca) index.

(** The loop of [GetPublicKey] from position [i] on, [addrs] being the
    addresses left to visit. *)
Fixpoint GetPublicKey_from {F S PK} `{!ForeignEqual F} `{!HasPublicKey S PK}
    (signers : list (AggregateSigner S PK)) (addrs : list (mino_Address F)) (i : Z)
    (addr : mino_Address F) : outcome (option PK * Z) :=
  match addrs with
  | [] => Returns (None, (-1)%Z)
  | address :: addrs =>
    if mino_Equal address addr
    then match at_index signers i with
         | Panics what => Panics what
         | Returns signer =>
           match Signer_GetPublicKey signer with
           | Panics what => Panics what
           | Returns pubkey => Returns (Some pubkey, i)
           end
         end
    else GetPublicKey_from signers addrs (i + 1) addr
  end.

Definition CollectiveAuthority_GetPublicKey {F S PK} `{!ForeignEqual F} `{!HasPublicKey S PK}
    (ca : CollectiveAuthority.t F S PK) (addr : mino_Address F) : outcome (option PK * Z) :=
  GetPublicKey_from (CollectiveAuthority.signers ca) (CollectiveAuthority.addrs ca) 0 addr.

(** The loop of [Take] over the indices of the filter. *)
Fixpoint Take_each {F S PK} (ca : CollectiveAuthority.t F S PK) (Indices : list Z)
  : outcome (list (mino_Address F) * list (AggregateSigner S PK)) :=
  match Indices with
  | [] => Returns ([], [])
  | k :: Indices =>
    match at_index (CollectiveAuthority.addrs ca) k with
    | Panics what => Panics what
    | Returns address =>
      match at_index (CollectiveAuthority.signers ca) k with
      | Panics what => Panics what
      | Returns signer =>
        match Take_each ca Indices with
        | Panics what => Panics what
        | Returns (addrs, signers) => Returns (address :: addrs, signer :: signers)
        end
      end
    end
  end.

(** [Take]; [mino.ApplyFilters] is not under src/, and the indices of the
    filter it makes of the updaters are given. *)
Definition CollectiveAuthority_Take {F S PK} (ca : CollectiveAuthority.t F S PK)
    (Indices : list Z) : outcome (CollectiveAuthority.t F S PK) :=
  match Take_each ca Indices with
  | Panics what => Panics what
  | Returns (addrs, signers) =>
    Returns (CollectiveAuthority.mk addrs signers (CollectiveAuthority.Call ca))
  end.

(** [append(l[:i], l[i+1:]...)] *)
Definition remove_at {A} (l : list A) (i : Z) : outcome (list A) :=
  if ((i <? 0) || (Z.of_nat (length l) <=? i))%Z
  then Panics "slice bounds out of range"
  else Returns (take (Z.to_nat i) l ++ drop (Datatypes.S (Z.to_nat i)) l).

(** The loop of [Apply] over the positions to remove. *)
Fixpoint Remove_each {F S PK} (addrs : list (mino_Address F))
    (signers : list (AggregateSigner S PK)) (Remove : list Z)
  : outcome (list (mino_Address F) * list (AggregateSigner S PK)) :=
  match Remove with
  | [] => Returns (addrs, signers)
  | i :: Remove =>
    match remove_at addrs i with
    | Panics what => Panics what
    | Returns addrs =>
      match remove_at signers i with
      | Panics what => Panics what
      | Returns signers => Remove_each addrs signers Remove
      end
    end
  end.

(** [Apply].  The first loop copies a signer for every address into a
    slice as long as the signers: it panics when the addresses are more,
    and leaves nil signers when they are fewer. *)
Definition CollectiveAuthority_Apply {F S PK} (ca : CollectiveAuthority.t F S PK)
    (cs : ChangeSet.t F PK) : outcome (CollectiveAuthority.t F S PK) :=
  let call := Call_Add (CollectiveAuthority.Call ca) [Text "apply"; Changes cs] in
  let addrs := CollectiveAuthority.addrs ca in
  let signers := CollectiveAuthority.signers ca in
  if (length signers <? length addrs)%nat then Panics "index out of range"
  else
    let copied := take (length addrs) signers
                  ++ replicate (length signers - length addrs) NilSigner in
    let addrs := addrs ++ (Player.Address <$> ChangeSet.Add cs) in
    let signers := copied ++ ((λ player, signerWrapper (Player.PublicKey player))
                                <$> ChangeSet.Add cs) in
    match Remove_each addrs signers (ChangeSet.Remove cs) with
    | Panics what => Panics what
    | Returns (addrs, signers) => Returns (CollectiveAuthority.mk addrs signers call)
    end.

Definition CollectiveAuthority_Len {F S PK} (ca : CollectiveAuthority.t F S PK) : Z :=
  Z.of_nat (length (CollectiveAuthority.signers ca)).

Definition CollectiveAuthority_AddressIterator {F S PK} (ca : CollectiveAuthority.t F S PK)
  : AddressIterator.t F :=
  AddressIterator.mk (CollectiveAuthority.addrs ca) 0.

Definition CollectiveAuthority_PublicKeyIterator {F S PK} (ca : CollectiveAuthority.t F S PK)
  : PublicKeyIterator.t S PK :=
  PublicKeyIterator.mk (CollectiveAuthority.signers ca) 0.

(** An authority as the functions of this package make it: a signer for
    every address. *)
Definition aligned {F S PK} (ca : CollectiveAuthority.t F S PK) : Prop :=
  length (CollectiveAuthority.addrs ca) = length (CollectiveAuthority.signers ca).

(** [Counter]: a nil [*Counter] is [None]. *)
Module Counter.

Record t : Type := mk { Value : Z }.

End Counter.

Definition NewCounter (value : Z) : option Counter.t := Some (Counter.mk value).

Definition Counter_Done (c : option Counter.t) : bool :=
  match c with
  | None => true
  | Some c => (Counter.Value c <=? 0)%Z
  end.

Definition Counter_Decrease (c : option Counter.t) : option Counter.t :=
  match c with
  | None => None
  | Some c => Some (Counter.mk (int_wrap (Counter.Value c - 1)))
  end.

(** [BadPackAnyEncoder.PackAny]: the state is the counter the encoder
    points to; the deferred [Decrease] runs whatever is returned.  [tt]
    stands for the empty [any.Any]. *)
Definition BadPackAnyEncoder_PackAny : M (option Counter.t) unit :=
  λ c, (if negb (Counter_Done c) then Ok tt else Err "fake error", Counter_Decrease c).

End fake.

(** ** Package [contract]: the client tasks *)

Module SpawnTask.

Record t (Message : Type) : Type := mk
  { ContractID : string; Argument : Message }.
Arguments mk {Message} ContractID Argument.
Arguments ContractID {Message} act : rename.
Arguments Argument {Message} act : rename.

Definition Fingerprint {Message W} `{!encoding.Writer W}
    (act : t Message) (e : encoding.ProtoMarshaler Message) : M W unit :=
  let* _ := or_return (Errorf "couldn't write contract: ")
              (encoding.Write (String.list_byte_of_string (ContractID act))) in
  let* _ := or_return (Errorf "couldn't write argument: ")
              (encoding.MarshalStable e (Argument act)) in
  ret tt.

End SpawnTask.

Module InvokeTask.

Record t (Message : Type) : Type := mk
  { Key : bytes; Argument : Message }.
Arguments mk {Message} Key Argument.
Arguments Key {Message} act : rename.
Arguments Argument {Message} act : rename.

Definition Fingerprint {Message W} `{!encoding.Writer W}
    (act : t Message) (e : encoding.ProtoMarshaler Message) : M W unit :=
  let* _ := or_return (Errorf "couldn't write key: ")
              (encoding.Write (Key act)) in
  let* _ := or_return (Errorf "couldn't write argument: ")
              (encoding.MarshalStable e (Argument act)) in
  ret tt.

End InvokeTask.

Module DeleteTask.

Record t : Type := mk { Key : bytes }.

Definition Fingerprint {Message W} `{!encoding.Writer W}
    (a : t) (e : encoding.ProtoMarshaler Message) : M W unit :=
  let* _ := or_return (Errorf "couldn't write key: ")
              (encoding.Write (Key a)) in
  ret tt.

End DeleteTask.

(** ** Collaborators of the server task *)

Module arc.

(** Modelled from the spec: [arc.AccessControl] is not under src/.  An
    access control answers [Match(rule, identity)] with an error unless
    the identity is authorized for the rule; [describe] is what [%v]
    prints for it. *)
Record AccessControl (Identity : Type) : Type := mk
  { Match : string → Identity → option error; describe : string }.
Arguments mk {Identity} Match describe.
Arguments Match {Identity} access rule who : rename.
Arguments describe {Identity} access : rename.

(** [arc.Compile] is not under src/ either: the rule built from a contract
    identifier and an action is left to the instance at hand. *)
Class Compiler := Compile : string → string → string.

End arc.

Module Instance.

(** The fields of [Instance] that the server task reads and writes. *)
Record t (Message : Type) : Type := mk
  { Key : bytes;
    ContractID : string;
    AccessControl : bytes;
    Deleted : bool;
    Value : Message }.
Arguments mk {Message} Key ContractID AccessControl Deleted Value.
Arguments Key {Message} instance : rename.
Arguments ContractID {Message} instance : rename.
Arguments AccessControl {Message} instance : rename.
Arguments Deleted {Message} instance : rename.
Arguments Value {Message} instance : rename.

(** [*Instance]: the place of an instance in the store.  A pointer is
    never nil: [ctx.Read] answers an error or a pointer to an instance. *)
Definition ptr : Type := nat.

(** The instances that the pointers stand for. *)
Definition store (Message : Type) : Type := ptr → t Message.

(** [instance.Value = value] and [instance.Deleted = deleted], on the
    instance itself. *)
Definition with_Value {Message} (instance : t Message) (value : Message) : t Message :=
  mk (Key instance) (ContractID instance) (AccessControl instance) (Deleted instance) value.

Definition with_Deleted {Message} (instance : t Message) (deleted : bool) : t Message :=
  mk (Key instance) (ContractID instance) (AccessControl instance) deleted (Value instance).

End Instance.

Module inventory.

(** Modelled from the spec: the storage page is not under src/.  The page
    is read and written by key, and an access control identifier is
    resolved through it.  What the page is handed and what it answers is
    an [*Instance]: a page holds pointers, and the instances are in the
    store.  A page that would answer a copy of what it holds is not
    covered: a read allocates nothing. *)
Class Page (Identity P : Type) : Type :=
  { Read : P → bytes → result Instance.ptr;
    GetArc : P → bytes → result (arc.AccessControl Identity);
    Write : bytes → Instance.ptr → M P unit }.

(** A page that reads back the very pointer a write that succeeded
    stored. *)
Definition reads_written {Identity P} `{!Page Identity P} (p : P) : Prop :=
  ∀ key instance p', Write key instance p = (Ok tt, p') → Read p' key = Ok instance.

(** A page on which a write that succeeded can be read back. *)
Definition reads_back {Identity P} `{!Page Identity P} (p : P) : Prop :=
  ∀ key instance p', Write key instance p = (Ok tt, p') → is_ok (Read p' key) = true.

End inventory.

Module basic.

(** [basic.Context]: the identifier of the enclosing transaction and the
    identity that submitted it. *)
Record Context (Identity : Type) : Type := mkContext
  { GetID : bytes; GetIdentity : Identity }.
Arguments mkContext {Identity} GetID GetIdentity.
Arguments GetID {Identity} ctx : rename.
Arguments GetIdentity {Identity} ctx : rename.

(** [basic.ClientTask] is an open interface.  The three tasks of this
    package implement it; [Foreign T] stands for a value of any other
    type, [T] being what [%T] prints for it. *)
Inductive ClientTask (Message : Type) : Type :=
| Spawn (task : SpawnTask.t Message)
| Invoke (task : InvokeTask.t Message)
| Delete (task : DeleteTask.t)
| Foreign (T : string).
Arguments Spawn {Message} task.
Arguments Invoke {Message} task.
Arguments Delete {Message} task.
Arguments Foreign {Message} T.

End basic.

Module taskContext.

(** [taskContext{Context: ctx, page: page}] *)
Record t (Identity P : Type) : Type := mk
  { Context : basic.Context Identity; page : P }.
Arguments mk {Identity P} Context page.
Arguments Context {Identity P} ctx : rename.
Arguments page {Identity P} ctx : rename.

End taskContext.

Module SpawnContext.

Record t (Message Identity P : Type) : Type := mk
  { Context : taskContext.t Identity P; SpawnTask : SpawnTask.t Message }.
Arguments mk {Message Identity P} Context SpawnTask.
Arguments Context {Message Identity P} ctx : rename.
Arguments SpawnTask {Message Identity P} ctx : rename.

End SpawnContext.

Module InvokeContext.

Record t (Message Identity P : Type) : Type := mk
  { Context : taskContext.t Identity P; InvokeTask : InvokeTask.t Message }.
Arguments mk {Message Identity P} Context InvokeTask.
Arguments Context {Message Identity P} ctx : rename.
Arguments InvokeTask {Message Identity P} ctx : rename.

End InvokeContext.

Module DeleteContext.

Record t (Identity P : Type) : Type := mk
  { Context : taskContext.t Identity P; DeleteTask : DeleteTask.t }.
Arguments mk {Identity P} Context DeleteTask.
Arguments Context {Identity P} ctx : rename.
Arguments DeleteTask {Identity P} ctx : rename.

End DeleteContext.

Module Contract.

(** [Contract]: the two entry points of a contract.  A contract sees the
    page through the context it is given and the instances through the
    pointers the page answers: it reads them, and assigns nothing. *)
Record t (Message Identity P : Type) : Type := mk
  { Spawn : SpawnContext.t Message Identity P → Instance.store Message
            → result (Message * bytes);
    Invoke : InvokeContext.t Message Identity P → Instance.store Message
             → result Message }.
Arguments mk {Message Identity P} Spawn Invoke.
Arguments Spawn {Message Identity P} exec ctx instances : rename.
Arguments Invoke {Message Identity P} exec ctx instances : rename.

End Contract.

(** ** The calls a server task makes *)

Module call.

(** One call to a collaborator, with its arguments. *)
Inductive t (Message Identity P : Type) : Type :=
| Read (key : bytes)
| GetArc (key : bytes)
| Match (rule : string) (who : Identity)
| Spawn (ctx : SpawnContext.t Message Identity P)
| Invoke (ctx : InvokeContext.t Message Identity P)
| Write (key : bytes) (instance : Instance.ptr).
Arguments Read {Message Identity P} key.
Arguments GetArc {Message Identity P} key.
Arguments Match {Message Identity P} rule who.
Arguments Spawn {Message Identity P} ctx.
Arguments Invoke {Message Identity P} ctx.
Arguments Write {Message Identity P} key instance.

Definition is_Write {Message Identity P} (c : t Message Identity P) : bool :=
  match c with Write _ _ => true | _ => false end.

Definition is_Contract {Message Identity P} (c : t Message Identity P) : bool :=
  match c with Spawn _ | Invoke _ => true | _ => false end.

Definition is_Access {Message Identity P} (c : t Message Identity P) : bool :=
  match c with GetArc _ | Match _ _ => true | _ => false end.

(** The writes among a list of calls, oldest first. *)
Definition writes {Message Identity P} (l : list (t Message Identity P))
  : list (bytes * Instance.ptr) :=
  omap (λ c, match c with Write key instance => Some (key, instance) | _ => None end) l.

End call.

(** The state a server task runs against: the page it was handed, the
    store of the instances, shared by all who hold a pointer, with the
    place of the next instance to be made, and the calls made so far,
    oldest first. *)
Record world (Message Identity P : Type) : Type := mkWorld
  { the_page : P;
    heap : Instance.store Message;
    next : Instance.ptr;
    calls : list (call.t Message Identity P) }.
Arguments mkWorld {Message Identity P} the_page heap next calls.
Arguments the_page {Message Identity P} w.
Arguments heap {Message Identity P} w.
Arguments next {Message Identity P} w.
Arguments calls {Message Identity P} w.

(** A computation that only reads: whatever it answers, it hands back the
    page and the store it was given and has added no write to the calls. *)
Definition reads_only {Message Identity P A}
    (c : M (world Message Identity P) A) : Prop :=
  ∀ w, the_page (c w).2 = the_page w
       ∧ heap (c w).2 = heap w
       ∧ next (c w).2 = next w
       ∧ call.writes (calls (c w).2) = call.writes (calls w).

(** A computation that writes nothing to the page and, when it fails, has
    left the store as it was as well. *)
Definition fails_clean {Message Identity P A}
    (c : M (world Message Identity P) A) : Prop :=
  ∀ w, the_page (c w).2 = the_page w
       ∧ call.writes (calls (c w).2) = call.writes (calls w)
       ∧ (is_ok (c w).1 = false → heap (c w).2 = heap w ∧ next (c w).2 = next w).

(** What a reader finds under a key: the instance that the pointer the
    page answers stands for. *)
Definition stored {Message Identity P} `{!inventory.Page Identity P}
    (w : world Message Identity P) (key : bytes) : result (Instance.t Message) :=
  match inventory.Read (the_page w) key with
  | Ok instance => Ok (heap w instance)
  | Err e => Err e
  end.

Module effect.
Section effect.
Context {Message Identity P : Type} `{!inventory.Page Identity P}.

Definition record (c : call.t Message Identity P) : M (world Message Identity P) unit :=
  λ w, (Ok tt, mkWorld (the_page w) (heap w) (next w) (calls w ++ [c])).

Definition lift {A} (r : result A) : M (world Message Identity P) A :=
  λ w, (r, w).

(** [ctx.Read(key)].  Modelled from the spec: the method of the context
    is not under src/; it reads the page the context holds, and answers
    the [*Instance] the page answers. *)
Definition Read (ctx : taskContext.t Identity P) (key : bytes)
  : M (world Message Identity P) Instance.ptr :=
  let* _ := record (call.Read key) in
  lift (inventory.Read (taskContext.page ctx) key).

(** [ctx.GetArc(key)].  Modelled from the spec: the method of the context
    is not under src/; it resolves the access control through the page the
    context holds. *)
Definition GetArc (ctx : taskContext.t Identity P) (key : bytes)
  : M (world Message Identity P) (arc.AccessControl Identity) :=
  let* _ := record (call.GetArc key) in
  lift (inventory.GetArc (taskContext.page ctx) key).

(** [access.Match(rule, identity)] *)
Definition Match (access : arc.AccessControl Identity) (rule : string) (who : Identity)
  : M (world Message Identity P) unit :=
  let* _ := record (call.Match rule who) in
  match arc.Match access rule who with
  | None => ret tt
  | Some err => fail err
  end.

(** [exec.Spawn(ctx)] *)
Definition Spawn (exec : Contract.t Message Identity P)
    (ctx : SpawnContext.t Message Identity P)
  : M (world Message Identity P) (Message * bytes) :=
  let* _ := record (call.Spawn ctx) in
  λ w, (Contract.Spawn exec ctx (heap w), w).

(** [exec.Invoke(ctx)] *)
Definition Invoke (exec : Contract.t Message Identity P)
    (ctx : InvokeContext.t Message Identity P)
  : M (world Message Identity P) Message :=
  let* _ := record (call.Invoke ctx) in
  λ w, (Contract.Invoke exec ctx (heap w), w).

(** [page.Write(key, instance)] *)
Definition Write (key : bytes) (instance : Instance.ptr)
  : M (world Message Identity P) unit :=
  λ w, let '(r, p) := inventory.Write key instance (the_page w) in
       (r, mkWorld p (heap w) (next w) (calls w ++ [call.Write key instance])).

(** [instance.f]: a field of the instance a pointer stands for, as the
    store has it now. *)
Definition get {A} (f : Instance.t Message → A) (instance : Instance.ptr)
  : M (world Message Identity P) A :=
  λ w, (Ok (f (heap w instance)), w).

(** [instance.f = v]: the assignment [set] to the instance a pointer
    stands for, in the store. *)
Definition assign {A} (set : Instance.t Message → A → Instance.t Message)
    (instance : Instance.ptr) (v : A) : M (world Message Identity P) unit :=
  λ w, (Ok tt, mkWorld (the_page w) (<[instance := set (heap w instance) v]> (heap w))
                 (next w) (calls w)).

(** [&Instance{...}]: a new instance in the store, at a place of its own:
    [next], past the places of the instances made before. *)
Definition new (instance : Instance.t Message) : M (world Message Identity P) Instance.ptr :=
  λ w, (Ok (next w), mkWorld (the_page w) (<[next w := instance]> (heap w))
                       (S (next w)) (calls w)).

End effect.
End effect.

(** ** The server task *)

Module serverTask.
Section serverTask.
Context {Message Identity P : Type}.
Context `{!inventory.Page Identity P} `{!arc.Compiler} `{!Stringer Identity}.

(** [contracts] is the Go map of the registered contracts; a name bound
    to a nil contract counts as a name that is not bound. *)
Record t : Type := mk
  { ClientTask : basic.ClientTask Message;
    contracts : gmap string (Contract.t Message Identity P);
    encoder : encoding.ProtoMarshaler Message }.

Definition hasAccess (act : t) (ctx : taskContext.t Identity P)
    (key : bytes) (rule : string) : M (world Message Identity P) unit :=
  let who := basic.GetIdentity (taskContext.Context ctx) in
  let* access := or_return (Errorf "couldn't read access: ")
                   (effect.GetArc ctx key) in
  let* _ := or_return
              (λ err, String_of who +:+ " is refused to '" +:+ rule +:+ "' by "
                        +:+ arc.describe access +:+ ": " +:+ err)
              (effect.Match access rule who) in
  ret tt.

Definition consumeSpawn (act : t) (ctx : SpawnContext.t Message Identity P)
  : M (world Message Identity P) Instance.ptr :=
  let tctx := SpawnContext.Context ctx in
  let id := basic.GetID (taskContext.Context tctx) in
  let ContractID := SpawnTask.ContractID (SpawnContext.SpawnTask ctx) in
  let* found := attempt (effect.Read tctx id) in
  if is_ok found then fail "instance already exists" else
  match contracts act !! ContractID with
  | None => fail ("contract '" +:+ ContractID +:+ "' not found")
  | Some exec =>
    let* (value, arcid) := or_return (Errorf "couldn't execute spawn: ")
                              (effect.Spawn exec ctx) in
    let rule := arc.Compile ContractID "spawn" in
    let* _ := or_return (Errorf "no access: ")
                (hasAccess act tctx arcid rule) in
    effect.new (Instance.mk id ContractID arcid false value)
  end.

Definition consumeInvoke (act : t) (ctx : InvokeContext.t Message Identity P)
  : M (world Message Identity P) Instance.ptr :=
  let tctx := InvokeContext.Context ctx in
  let* instance := or_return (Errorf "couldn't read the instance: ")
                     (effect.Read tctx (InvokeTask.Key (InvokeContext.InvokeTask ctx))) in
  let* ContractID := effect.get Instance.ContractID instance in
  let rule := arc.Compile ContractID "invoke" in
  let* AccessControl := effect.get Instance.AccessControl instance in
  let* _ := or_return (Errorf "no access: ")
              (hasAccess act tctx AccessControl rule) in
  let* ContractID := effect.get Instance.ContractID instance in
  match contracts act !! ContractID with
  | None => fail ("contract '" +:+ ContractID +:+ "' not found")
  | Some exec =>
    let* value := or_return (Errorf "couldn't invoke: ")
                    (effect.Invoke exec ctx) in
    let* _ := effect.assign Instance.with_Value instance value in
    ret instance
  end.

Definition consumeDelete (act : t) (ctx : DeleteContext.t Identity P)
  : M (world Message Identity P) Instance.ptr :=
  let tctx := DeleteContext.Context ctx in
  let* instance := or_return (Errorf "couldn't read the instance: ")
                     (effect.Read tctx (DeleteTask.Key (DeleteContext.DeleteTask ctx))) in
  let* _ := effect.assign Instance.with_Deleted instance true in
  ret instance.

(** The type switch of [Consume]: the transition of the task at hand. *)
Definition transition (act : t) (txCtx : taskContext.t Identity P)
  : M (world Message Identity P) Instance.ptr :=
  match ClientTask act with
  | basic.Spawn task => consumeSpawn act (SpawnContext.mk txCtx task)
  | basic.Invoke task => consumeInvoke act (InvokeContext.mk txCtx task)
  | basic.Delete task => consumeDelete act (DeleteContext.mk txCtx task)
  | basic.Foreign T => fail ("invalid task type '" +:+ T +:+ "'")
  end.

(** [Consume(ctx, page)]; the page is the one of the world it runs in. *)
Definition Consume (act : t) (ctx : basic.Context Identity)
  : M (world Message Identity P) unit :=
  λ w,
    let txCtx := taskContext.mk ctx (the_page w) in
    (let* instance := transition act txCtx in
     let* Key := effect.get Instance.Key instance in
     let* _ := or_return (Errorf "couldn't write instance to page: ")
                 (effect.Write Key instance) in
     ret tt) w.

End serverTask.
Arguments t Message Identity P : clear implicits.
End serverTask.

Module TaskFactory.

(** The factory, without its [arcFactory], which nothing here uses. *)
Record t (Message Identity P : Type) : Type := mk
  { contracts : gmap string (Contract.t Message Identity P);
    encoder : encoding.ProtoMarshaler Message }.
Arguments mk {Message Identity P} contracts encoder.
Arguments contracts {Message Identity P} f : rename.
Arguments encoder {Message Identity P} f : rename.

(** [NewTaskFactory]: no contract registered; the encoder it makes is
    given. *)
Definition NewTaskFactory {Message Identity P} (encoder : encoding.ProtoMarshaler Message)
  : t Message Identity P :=
  mk ∅ encoder.

(** [Register]: a name registered before is overwritten. *)
Definition Register {Message Identity P} (f : t Message Identity P)
    (name : string) (contract : Contract.t Message Identity P) : t Message Identity P :=
  mk (<[name := contract]> (contracts f)) (encoder f).

End TaskFactory.

(** ** A page kept in memory *)

Module mem.

(** Modelled from the spec: the storage page collaborator, [read(key)]
    answering the instance or a failure and [write(key, instance)], with
    the access controls reachable through it.  Like a Go map of messages,
    the page keeps under a key the pointer it was handed and answers that
    pointer.  In the manner of the doubles of [fake], [ErrRead] and
    [ErrWrite] make every read or write fail with the given error. *)
Record Page (Identity : Type) : Type := mk
  { entries : gmap bytes Instance.ptr;
    arcs : gmap bytes (arc.AccessControl Identity);
    ErrRead : option error;
    ErrWrite : option error }.
Arguments mk {Identity} entries arcs ErrRead ErrWrite.
Arguments entries {Identity} p.
Arguments arcs {Identity} p.
Arguments ErrRead {Identity} p.
Arguments ErrWrite {Identity} p.

Definition Read {Identity} (p : Page Identity) (key : bytes) : result Instance.ptr :=
  match ErrRead p with
  | Some e => Err e
  | None =>
    match entries p !! key with
    | Some instance => Ok instance
    | None => Err "instance not found"
    end
  end.

Definition GetArc {Identity} (p : Page Identity) (key : bytes)
  : result (arc.AccessControl Identity) :=
  match arcs p !! key with
  | Some access => Ok access
  | None => Err "access control not found"
  end.

Definition Write {Identity} (key : bytes) (instance : Instance.ptr)
  : M (Page Identity) unit :=
  λ p, match ErrWrite p with
       | Some e => (Err e, p)
       | None => (Ok tt, mk (<[key := instance]> (entries p)) (arcs p)
                            (ErrRead p) (ErrWrite p))
       end.

#[global] Instance Page_Page {Identity} : inventory.Page Identity (Page Identity) :=
  {| inventory.Read := Read; inventory.GetArc := GetArc; inventory.Write := Write |}.

End mem.

(** ** A coin contract on a page in memory *)

Module example.

(** A message: the name of its type and its fields in canonical order. *)
Record message : Type := mkMessage
  { type_name : string; fields : list (string * Z) }.

Fixpoint render_fields (l : list (string * Z)) : string :=
  match l with
  | [] => ""
  | (name, v) :: l => name +:+ ":" +:+ pretty v +:+ ";" +:+ render_fields l
  end.

(** A stable serializer that, like a JSON rendering, writes the fields of
    a message and not the name of its type. *)
Definition encoder : encoding.ProtoMarshaler message :=
  {| encoding.stable :=
       λ m, Ok (String.list_byte_of_string ("{" +:+ render_fields (fields m) +:+ "}")) |}.

Definition balance (n : Z) : message := mkMessage "Balance" [("balance", n)].
Definition delta (n : Z) : message := mkMessage "Delta" [("delta", n)].
Definition empty : message := mkMessage "Empty" [].
Definition void : message := mkMessage "Void" [].

#[global] Instance string_Stringer : Stringer string := λ s, s.

#[global] Instance compiler : arc.Compiler := λ contract action, contract +:+ ":" +:+ action.

Definition k1 : bytes := String.list_byte_of_string "k1".
Definition A0 : bytes := String.list_byte_of_string "A0".
Definition A1 : bytes := String.list_byte_of_string "A1".

(** [A0] allows everyone everything; [A1] allows only what it lists. *)
Definition allow_all : arc.AccessControl string :=
  arc.mk (λ _ _, None) "allow-all".

Definition only (allowed : list (string * string)) : arc.AccessControl string :=
  arc.mk (λ rule who, if bool_decide ((rule, who) ∈ allowed) then None
                      else Some "unauthorized")
         "allow-list".

Abbreviation page := (mem.Page string).

Definition first_field (m : message) : Z :=
  match fields m with
  | (_, v) :: _ => v
  | [] => 0
  end.

(** The coin contract: a spawn yields a balance of 100 under the access
    control the argument names ([A0] unless its first field is 1); an
    invoke adds the delta of the argument to the balance on the page. *)
Definition coin : Contract.t message string page :=
  Contract.mk
    (λ ctx _, Ok (balance 100,
                  if (first_field (SpawnTask.Argument (SpawnContext.SpawnTask ctx)) =? 1)%Z
                  then A1 else A0))
    (λ ctx instances,
       let task := InvokeContext.InvokeTask ctx in
       match mem.Read (taskContext.page (InvokeContext.Context ctx)) (InvokeTask.Key task) with
       | Err e => Err e
       | Ok instance =>
         let total := (first_field (Instance.Value (instances instance))
                       + first_field (InvokeTask.Argument task))%Z in
         if (total <? 0)%Z then Err "insufficient balance" else Ok (balance total)
       end).

Definition registry : gmap string (Contract.t message string page) :=
  {[ "coin" := coin ]}.

Definition task (t : basic.ClientTask message) : serverTask.t message string page :=
  serverTask.mk t registry encoder.

Definition genesis : page :=
  mem.mk ∅
    (<[A0 := allow_all]>
       (<[A1 := only [("coin:spawn", "I2"); ("coin:invoke", "I2")]]> ∅))
    None None.

(** A store in which no instance was made yet. *)
Definition blank : Instance.store message := λ _, Instance.mk [] "" [] false void.

Definition fresh (p : page) : world message string page := mkWorld p blank 0 [].

(** The world a run left, with no call made yet. *)
Definition settled (w : world message string page) : world message string page :=
  mkWorld (the_page w) (heap w) (next w) [].

Definition tx (id : bytes) (who : string) : basic.Context string :=
  basic.mkContext id who.

(** The world after [I1] spawned a coin at [k1]. *)
Definition spawned : world message string page :=
  settled (serverTask.Consume (task (basic.Spawn (SpawnTask.mk "coin" empty)))
             (tx k1 "I1") (fresh genesis)).2.

(** The world after [I2] spawned a coin at [k1] under [A1]. *)
Definition guarded : world message string page :=
  settled (serverTask.Consume (task (basic.Spawn (SpawnTask.mk "coin" (delta 1))))
             (tx k1 "I2") (fresh genesis)).2.

Definition spawn_coin : serverTask.t message string page :=
  task (basic.Spawn (SpawnTask.mk "coin" empty)).

Definition invoke_coin (d : Z) : serverTask.t message string page :=
  task (basic.Invoke (InvokeTask.mk k1 (delta d))).

Definition delete_coin : serverTask.t message string page :=
  task (basic.Delete (DeleteTask.mk k1)).

(** The coin at [k1]. *)
Definition coin_at_k1 (arcid : bytes) (n : Z) : Instance.t message :=
  Instance.mk k1 "coin" arcid false (balance n).

(** The world after [I1] then took 30 from the coin at [k1]. *)
Definition spent : world message string page :=
  settled (serverTask.Consume (invoke_coin (-30)) (tx k1 "I1") spawned).2.

(** A world with every read of its page failing, or every write. *)
Definition failing (ErrRead ErrWrite : option error) (w : world message string page)
  : world message string page :=
  mkWorld (mem.mk (mem.entries (the_page w)) (mem.arcs (the_page w)) ErrRead ErrWrite)
    (heap w) (next w) [].

(** [spent], with every read failing. *)
Definition unreadable : world message string page :=
  failing (Some "storage failure") None spent.

(** [spent], with every write failing. *)
Definition unwritable : world message string page :=
  failing None (Some "storage failure") spent.

(** A writer over a [fake.Hash] that accepts every write and records it. *)
Definition recorder : encoding.Recorder fake.Hash :=
  encoding.mkRecorder (fake.mkHash 0 None (Some [])) [].

End example.

(** ** An authority of three *)

Module committee.

(** No address of another implementation. *)
#[global] Instance no_foreign : fake.ForeignEqual Empty_set := λ f _, match f with end.

(** Signers are numbered; the public key of signer [s] is [100 + s]. *)
#[global] Instance numbered : fake.HasPublicKey nat Z := λ s, (100 + Z.of_nat s)%Z.

(** The generator hands out the numbers from its state on. *)
Definition next_signer : nat → nat * nat := λ γ, (γ, Datatypes.S γ).

Abbreviation authority := (fake.CollectiveAuthority.t Empty_set nat Z).

(** [NewAuthority(3, g)] with a [Call]. *)
Definition trio : authority :=
  match fake.NewAuthority 3 next_signer 0%nat with
  | Returns (ca, _) =>
    fake.CollectiveAuthority.mk (fake.CollectiveAuthority.addrs ca)
      (fake.CollectiveAuthority.signers ca) (Some [])
  | Panics _ => fake.CollectiveAuthority.mk [] [] None
  end.

Definition newcomer : fake.Player.t Empty_set Z :=
  fake.Player.mk (fake.Fake (fake.NewAddress 7)) 700%Z.

End committee.

(** * Properties *)

(** ** Running the monad *)

Lemma bind_Ok {S A B} (c : M S A) (k : A → M S B) s a s' :
  c s = (Ok a, s') → bind c k s = k a s'.
Proof. unfold bind. by intros ->. Qed.

Lemma bind_Err {S A B} (c : M S A) (k : A → M S B) s e s' :
  c s = (Err e, s') → bind c k s = (Err e, s').
Proof. unfold bind. by intros ->. Qed.

Lemma or_return_Ok {S A} f (c : M S A) s a s' :
  c s = (Ok a, s') → or_return f c s = (Ok a, s').
Proof. unfold or_return. by intros ->. Qed.

Lemma or_return_Err {S A} f (c : M S A) s e s' :
  c s = (Err e, s') → or_return f c s = (Err (f e), s').
Proof. unfold or_return. by intros ->. Qed.

(** ** Fingerprints *)

Section Fingerprints.
Context {Message W : Type} `{!encoding.Writer W}.
Implicit Types (e : encoding.ProtoMarshaler Message) (r : encoding.Recorder W).
Implicit Types (p : bytes) (x : error).

Lemma Recorder_Write_Ok p r r' :
  encoding.Write p r = (Ok tt, r') →
  encoding.output r' = encoding.output r ++ p
  ∧ encoding.Write p (encoding.sink r) = (Ok tt, encoding.sink r').
Proof.
  unfold encoding.Write at 1, encoding.Recorder_Writer.
  destruct (encoding.Write p (encoding.sink r)) as [[[]|x] w] eqn:Hw;
    intros [= <-]; by rewrite ?Hw.
Qed.

Lemma Recorder_Write_Err p r x r' :
  encoding.Write p r = (Err x, r') →
  encoding.output r' = encoding.output r
  ∧ encoding.Write p (encoding.sink r) = (Err x, encoding.sink r').
Proof.
  unfold encoding.Write at 1, encoding.Recorder_Writer.
  destruct (encoding.Write p (encoding.sink r)) as [[[]|x'] w] eqn:Hw;
    intros [= <-]; subst; by rewrite ?Hw.
Qed.

(** A write of [first] followed by the stable serialization of [arg], on
    any writer: the outcome at each of the three places it can stop. *)
Lemma write_then_marshal {V} `{!encoding.Writer V} (prefix : string) (first : bytes)
    e (arg : Message) (v : V) :
  (let* _ := or_return (Errorf prefix) (encoding.Write first) in
   let* _ := or_return (Errorf "couldn't write argument: ")
               (encoding.MarshalStable e arg) in
   ret tt) v =
  match encoding.Write first v with
  | (Err x, v1) => (Err (Errorf prefix x), v1)
  | (Ok _, v1) =>
    match encoding.stable e arg with
    | Err x => (Err (Errorf "couldn't write argument: " x), v1)
    | Ok bs =>
      match encoding.Write bs v1 with
      | (Err x, v2) => (Err (Errorf "couldn't write argument: " x), v2)
      | (Ok _, v2) => (Ok tt, v2)
      end
    end
  end.
Proof.
  unfold bind, or_return, encoding.MarshalStable, ret, fail.
  destruct (encoding.Write first v) as [[[]|x] v1]; [|done].
  destruct (encoding.stable e arg) as [bs|x]; [|done].
  by destruct (encoding.Write bs v1) as [[[]|x] v2].
Qed.

Lemma write_only {V} `{!encoding.Writer V} (prefix : string) (first : bytes) (v : V) :
  (let* _ := or_return (Errorf prefix) (encoding.Write first) in ret tt) v =
  match encoding.Write first v with
  | (Err x, v1) => (Err (Errorf prefix x), v1)
  | (Ok _, v1) => (Ok tt, v1)
  end.
Proof.
  unfold bind, or_return, ret.
  by destruct (encoding.Write first v) as [[[]|x] v1].
Qed.

(** What a recorder holds after the two writes went through. *)
Lemma write_then_marshal_output (prefix : string) (first : bytes) e (arg : Message) r r' :
  (let* _ := or_return (Errorf prefix) (encoding.Write first) in
   let* _ := or_return (Errorf "couldn't write argument: ")
               (encoding.MarshalStable e arg) in
   ret tt) r = (Ok tt, r') →
  ∃ bs, encoding.stable e arg = Ok bs
        ∧ encoding.output r' = encoding.output r ++ first ++ bs.
Proof.
  rewrite write_then_marshal.
  destruct (encoding.Write first r) as [[[]|x] r1] eqn:H1; [|done].
  destruct (encoding.stable e arg) as [bs|x]; [|done].
  destruct (encoding.Write bs r1) as [[[]|x] r2] eqn:H2; [|done].
  intros [= <-]. exists bs. split; [done|].
  apply Recorder_Write_Ok in H2 as [-> _].
  apply Recorder_Write_Ok in H1 as [-> _].
  by rewrite <- (assoc_L (++)).
Qed.

Lemma write_only_output (prefix : string) (first : bytes) r r' :
  (let* _ := or_return (Errorf prefix) (encoding.Write first) in ret tt) r = (Ok tt, r') →
  encoding.output r' = encoding.output r ++ first.
Proof.
  rewrite write_only.
  destruct (encoding.Write first r) as [[[]|x] r1] eqn:H1; [|done].
  intros [= <-]. by apply Recorder_Write_Ok in H1 as [-> _].
Qed.

(** C7. Each task writes, in order: a spawn the bytes of its contract
    identifier and then the stable serialization of its argument; an
    invoke its key and then the stable serialization of its argument; a
    delete its key only.  Whenever the writer refuses a write or the
    serializer fails, the fingerprint returns that failure as its error;
    when neither happens, it returns no error. *)
Theorem Fingerprint_writes e r :
  (∀ act : SpawnTask.t Message,
     let contract := String.list_byte_of_string (SpawnTask.ContractID act) in
     let argument := encoding.stable e (SpawnTask.Argument act) in
     let run := SpawnTask.Fingerprint act e r in
     (∀ r', run = (Ok tt, r') →
        ∃ bs, argument = Ok bs
              ∧ encoding.output r' = encoding.output r ++ contract ++ bs)
     ∧ (∀ x r1, encoding.Write contract r = (Err x, r1) →
          run = (Err (Errorf "couldn't write contract: " x), r1))
     ∧ (∀ x r1, encoding.Write contract r = (Ok tt, r1) → argument = Err x →
          run = (Err (Errorf "couldn't write argument: " x), r1))
     ∧ (∀ x bs r1 r2, encoding.Write contract r = (Ok tt, r1) → argument = Ok bs →
          encoding.Write bs r1 = (Err x, r2) →
          run = (Err (Errorf "couldn't write argument: " x), r2))
     ∧ (∀ bs r1 r2, encoding.Write contract r = (Ok tt, r1) → argument = Ok bs →
          encoding.Write bs r1 = (Ok tt, r2) → run = (Ok tt, r2)))
  ∧ (∀ act : InvokeTask.t Message,
       let key := InvokeTask.Key act in
       let argument := encoding.stable e (InvokeTask.Argument act) in
       let run := InvokeTask.Fingerprint act e r in
       (∀ r', run = (Ok tt, r') →
          ∃ bs, argument = Ok bs
                ∧ encoding.output r' = encoding.output r ++ key ++ bs)
       ∧ (∀ x r1, encoding.Write key r = (Err x, r1) →
            run = (Err (Errorf "couldn't write key: " x), r1))
       ∧ (∀ x r1, encoding.Write key r = (Ok tt, r1) → argument = Err x →
            run = (Err (Errorf "couldn't write argument: " x), r1))
       ∧ (∀ x bs r1 r2, encoding.Write key r = (Ok tt, r1) → argument = Ok bs →
            encoding.Write bs r1 = (Err x, r2) →
            run = (Err (Errorf "couldn't write argument: " x), r2))
       ∧ (∀ bs r1 r2, encoding.Write key r = (Ok tt, r1) → argument = Ok bs →
            encoding.Write bs r1 = (Ok tt, r2) → run = (Ok tt, r2)))
  ∧ (∀ a : DeleteTask.t,
       let key := DeleteTask.Key a in
       let run := DeleteTask.Fingerprint a e r in
       (∀ r', run = (Ok tt, r') → encoding.output r' = encoding.output r ++ key)
       ∧ (∀ x r1, encoding.Write key r = (Err x, r1) →
            run = (Err (Errorf "couldn't write key: " x), r1))
       ∧ (∀ r1, encoding.Write key r = (Ok tt, r1) → run = (Ok tt, r1))).
Proof.
  split; [|split].
  - intros act contract argument run. split.
    { intros r'. apply write_then_marshal_output. }
    subst run. unfold SpawnTask.Fingerprint. rewrite write_then_marshal.
    fold contract argument.
    repeat split; intros; repeat match goal with H : _ = _ |- _ => rewrite H end; done.
  - intros act key argument run. split.
    { intros r'. apply write_then_marshal_output. }
    subst run. unfold InvokeTask.Fingerprint. rewrite write_then_marshal.
    fold key argument.
    repeat split; intros; repeat match goal with H : _ = _ |- _ => rewrite H end; done.
  - intros a key run. split.
    { intros r'. apply write_only_output. }
    subst run. unfold DeleteTask.Fingerprint. rewrite write_only. fold key.
    split; intros; repeat match goal with H : _ = _ |- _ => rewrite H end; done.
Qed.

End Fingerprints.

Lemma list_byte_of_string_inj (s t : string) :
  String.list_byte_of_string s = String.list_byte_of_string t → s = t.
Proof.
  intros H. rewrite <- (String.string_of_list_byte_of_string s),
    <- (String.string_of_list_byte_of_string t). by rewrite H.
Qed.

Lemma emitted_inj {W} (r r' : encoding.Recorder W) fp fp' :
  encoding.emitted r r' fp → encoding.emitted r r' fp' → fp = fp'.
Proof. unfold encoding.emitted. intros -> H. by apply app_inv_head in H. Qed.

Lemma Ok_inj {A} (a b : A) : Ok a = Ok b → a = b.
Proof. by intros [= ->]. Qed.

Section Emitted.
Context {Message W : Type} `{!encoding.Writer W}.
Implicit Types (e : encoding.ProtoMarshaler Message) (r : encoding.Recorder W).

Lemma SpawnTask_emitted e r (act : SpawnTask.t Message) r' fp :
  SpawnTask.Fingerprint act e r = (Ok tt, r') → encoding.emitted r r' fp →
  ∃ bs, encoding.stable e (SpawnTask.Argument act) = Ok bs
        ∧ fp = String.list_byte_of_string (SpawnTask.ContractID act) ++ bs.
Proof.
  intros Hrun Hfp. apply write_then_marshal_output in Hrun as (bs & Hs & Hrun).
  exists bs. split; [done|]. by apply (emitted_inj r r').
Qed.

Lemma InvokeTask_emitted e r (act : InvokeTask.t Message) r' fp :
  InvokeTask.Fingerprint act e r = (Ok tt, r') → encoding.emitted r r' fp →
  ∃ bs, encoding.stable e (InvokeTask.Argument act) = Ok bs
        ∧ fp = InvokeTask.Key act ++ bs.
Proof.
  intros Hrun Hfp. apply write_then_marshal_output in Hrun as (bs & Hs & Hrun).
  exists bs. split; [done|]. by apply (emitted_inj r r').
Qed.

Lemma DeleteTask_emitted e r (a : DeleteTask.t) r' fp :
  DeleteTask.Fingerprint a e r = (Ok tt, r') → encoding.emitted r r' fp →
  fp = DeleteTask.Key a.
Proof.
  intros Hrun Hfp. apply write_only_output in Hrun. by apply (emitted_inj r r').
Qed.

End Emitted.

Section Determinism.
Context {Message W1 W2 : Type} `{!encoding.Writer W1} `{!encoding.Writer W2}.
Variables e1 e2 : encoding.ProtoMarshaler Message.
Variable r1 : encoding.Recorder W1.
Variable r2 : encoding.Recorder W2.

(** C8, as amended. With serializers that agree on every message, two
    calls on one task emit the same bytes on any two writers.  Two tasks of
    one variant with equal arguments and different contract identifiers
    (spawn) or keys (invoke, delete) emit different bytes.  Two spawns or
    two invokes that differ in the argument alone emit different bytes
    exactly when the two arguments serialize differently. *)
Theorem Fingerprint_deterministic :
  (∀ m, encoding.stable e1 m = encoding.stable e2 m) →
  (∀ (act : SpawnTask.t Message) r1' r2',
     SpawnTask.Fingerprint act e1 r1 = (Ok tt, r1') →
     SpawnTask.Fingerprint act e2 r2 = (Ok tt, r2') →
     ∃ fp, encoding.emitted r1 r1' fp ∧ encoding.emitted r2 r2' fp)
  ∧ (∀ (act : InvokeTask.t Message) r1' r2',
       InvokeTask.Fingerprint act e1 r1 = (Ok tt, r1') →
       InvokeTask.Fingerprint act e2 r2 = (Ok tt, r2') →
       ∃ fp, encoding.emitted r1 r1' fp ∧ encoding.emitted r2 r2' fp)
  ∧ (∀ (a : DeleteTask.t) r1' r2',
       DeleteTask.Fingerprint a e1 r1 = (Ok tt, r1') →
       DeleteTask.Fingerprint a e2 r2 = (Ok tt, r2') →
       ∃ fp, encoding.emitted r1 r1' fp ∧ encoding.emitted r2 r2' fp)
  ∧ (∀ (a b : SpawnTask.t Message) r1' r2' fa fb,
       SpawnTask.Fingerprint a e1 r1 = (Ok tt, r1') →
       SpawnTask.Fingerprint b e2 r2 = (Ok tt, r2') →
       encoding.emitted r1 r1' fa → encoding.emitted r2 r2' fb →
       (SpawnTask.ContractID a ≠ SpawnTask.ContractID b →
        SpawnTask.Argument a = SpawnTask.Argument b → fa ≠ fb)
       ∧ (SpawnTask.ContractID a = SpawnTask.ContractID b →
          (fa ≠ fb ↔ encoding.stable e1 (SpawnTask.Argument a)
                     ≠ encoding.stable e1 (SpawnTask.Argument b))))
  ∧ (∀ (a b : InvokeTask.t Message) r1' r2' fa fb,
       InvokeTask.Fingerprint a e1 r1 = (Ok tt, r1') →
       InvokeTask.Fingerprint b e2 r2 = (Ok tt, r2') →
       encoding.emitted r1 r1' fa → encoding.emitted r2 r2' fb →
       (InvokeTask.Key a ≠ InvokeTask.Key b →
        InvokeTask.Argument a = InvokeTask.Argument b → fa ≠ fb)
       ∧ (InvokeTask.Key a = InvokeTask.Key b →
          (fa ≠ fb ↔ encoding.stable e1 (InvokeTask.Argument a)
                     ≠ encoding.stable e1 (InvokeTask.Argument b))))
  ∧ (∀ (a b : DeleteTask.t) r1' r2' fa fb,
       DeleteTask.Fingerprint a e1 r1 = (Ok tt, r1') →
       DeleteTask.Fingerprint b e2 r2 = (Ok tt, r2') →
       encoding.emitted r1 r1' fa → encoding.emitted r2 r2' fb →
       DeleteTask.Key a ≠ DeleteTask.Key b → fa ≠ fb).
Proof.
  intros Hdet.
  split; [|split; [|split; [|split; [|split]]]].
  - intros act r1' r2' H1 H2.
    apply write_then_marshal_output in H1 as (bs1 & Hs1 & H1).
    apply write_then_marshal_output in H2 as (bs2 & Hs2 & H2).
    rewrite Hdet, Hs2 in Hs1. apply Ok_inj in Hs1 as ->. eauto.
  - intros act r1' r2' H1 H2.
    apply write_then_marshal_output in H1 as (bs1 & Hs1 & H1).
    apply write_then_marshal_output in H2 as (bs2 & Hs2 & H2).
    rewrite Hdet, Hs2 in Hs1. apply Ok_inj in Hs1 as ->. eauto.
  - intros a r1' r2' H1 H2.
    apply write_only_output in H1. apply write_only_output in H2. eauto.
  - intros a b r1' r2' fa fb Ha Hb Hfa Hfb.
    destruct (SpawnTask_emitted _ _ _ _ _ Ha Hfa) as (bsa & Hsa & ->).
    destruct (SpawnTask_emitted _ _ _ _ _ Hb Hfb) as (bsb & Hsb & ->).
    rewrite <- Hdet in Hsb. rewrite Hsa, Hsb. split.
    + intros Hne Harg Heq. rewrite Harg, Hsb in Hsa. apply Ok_inj in Hsa as ->.
      apply app_inv_tail in Heq. by apply list_byte_of_string_inj in Heq.
    + intros ->. split.
      * intros Hne [= ->]. by apply Hne.
      * intros Hne Heq. apply Hne. f_equal. by apply app_inv_head in Heq.
  - intros a b r1' r2' fa fb Ha Hb Hfa Hfb.
    destruct (InvokeTask_emitted _ _ _ _ _ Ha Hfa) as (bsa & Hsa & ->).
    destruct (InvokeTask_emitted _ _ _ _ _ Hb Hfb) as (bsb & Hsb & ->).
    rewrite <- Hdet in Hsb. rewrite Hsa, Hsb. split.
    + intros Hne Harg Heq. rewrite Harg, Hsb in Hsa. apply Ok_inj in Hsa as ->.
      by apply app_inv_tail in Heq.
    + intros ->. split.
      * intros Hne [= ->]. by apply Hne.
      * intros Hne Heq. apply Hne. f_equal. by apply app_inv_head in Heq.
  - intros a b r1' r2' fa fb Ha Hb Hfa Hfb Hne.
    rewrite (DeleteTask_emitted _ _ _ _ _ Ha Hfa), (DeleteTask_emitted _ _ _ _ _ Hb Hfb).
    done.
Qed.

End Determinism.

(** C10. Nothing in a fingerprint tells the variant of the task or where a
    field ends.  A spawn and an invoke, the bytes of the contract
    identifier of the one being the key of the other and the arguments
    equal, leave any writer in the same state, with the same bytes
    emitted, and fail or succeed together: when the writer refuses the
    first write both fail there, and when it accepts it both are, error
    included, what the serializer makes of the argument from there on.
    The fingerprint of a delete is its one write: when the writer accepts
    the key, the delete returns no error and has emitted the key and
    nothing else, and when the writer refuses it, the delete fails with
    nothing emitted.  So every spawn shares its fingerprint with an
    invoke. *)
Theorem Fingerprint_untagged {Message W} `{!encoding.Writer W}
    (e : encoding.ProtoMarshaler Message) (r : encoding.Recorder W) :
  (∀ (s : SpawnTask.t Message) (i : InvokeTask.t Message),
     String.list_byte_of_string (SpawnTask.ContractID s) = InvokeTask.Key i →
     SpawnTask.Argument s = InvokeTask.Argument i →
     (SpawnTask.Fingerprint s e r).2 = (InvokeTask.Fingerprint i e r).2
     ∧ is_ok (SpawnTask.Fingerprint s e r).1 = is_ok (InvokeTask.Fingerprint i e r).1
     ∧ (∀ x r1, encoding.Write (InvokeTask.Key i) r = (Err x, r1) →
          SpawnTask.Fingerprint s e r = (Err (Errorf "couldn't write contract: " x), r1)
          ∧ InvokeTask.Fingerprint i e r = (Err (Errorf "couldn't write key: " x), r1)
          ∧ encoding.output r1 = encoding.output r)
     ∧ (∀ r1, encoding.Write (InvokeTask.Key i) r = (Ok tt, r1) →
          let argument := encoding.MarshalStable e (InvokeTask.Argument i) r1 in
          SpawnTask.Fingerprint s e r = InvokeTask.Fingerprint i e r
          ∧ InvokeTask.Fingerprint i e r
            = (match argument.1 with
               | Ok _ => Ok tt
               | Err x => Err (Errorf "couldn't write argument: " x)
               end, argument.2)
          ∧ encoding.output r1 = encoding.output r ++ InvokeTask.Key i)
     ∧ (∀ r', InvokeTask.Fingerprint i e r = (Ok tt, r') →
          ∃ bs, encoding.stable e (InvokeTask.Argument i) = Ok bs
                ∧ encoding.emitted r r' (InvokeTask.Key i ++ bs)))
  ∧ (∀ d : DeleteTask.t,
       (∀ r', DeleteTask.Fingerprint d e r = (Ok tt, r') →
          encoding.emitted r r' (DeleteTask.Key d))
       ∧ (∀ r1, encoding.Write (DeleteTask.Key d) r = (Ok tt, r1) →
            DeleteTask.Fingerprint d e r = (Ok tt, r1)
            ∧ encoding.emitted r r1 (DeleteTask.Key d))
       ∧ (∀ x r1, encoding.Write (DeleteTask.Key d) r = (Err x, r1) →
            DeleteTask.Fingerprint d e r = (Err (Errorf "couldn't write key: " x), r1)
            ∧ encoding.emitted r r1 []))
  ∧ (∀ s : SpawnTask.t Message, ∃ i : InvokeTask.t Message,
       basic.Spawn s ≠ basic.Invoke i
       ∧ (InvokeTask.Fingerprint i e r).2 = (SpawnTask.Fingerprint s e r).2
       ∧ is_ok (InvokeTask.Fingerprint i e r).1 = is_ok (SpawnTask.Fingerprint s e r).1).
Proof.
  assert (Hsame : ∀ (s : SpawnTask.t Message) (i : InvokeTask.t Message),
     String.list_byte_of_string (SpawnTask.ContractID s) = InvokeTask.Key i →
     SpawnTask.Argument s = InvokeTask.Argument i →
     (SpawnTask.Fingerprint s e r).2 = (InvokeTask.Fingerprint i e r).2
     ∧ is_ok (SpawnTask.Fingerprint s e r).1 = is_ok (InvokeTask.Fingerprint i e r).1).
  { intros s i Hkey Harg.
    unfold SpawnTask.Fingerprint, InvokeTask.Fingerprint.
    rewrite !write_then_marshal, Hkey, Harg.
    destruct (encoding.Write (InvokeTask.Key i) r) as [[[]|x] r1]; [|done].
    destruct (encoding.stable e (InvokeTask.Argument i)) as [bs|x]; [|done].
    by destruct (encoding.Write bs r1) as [[[]|x] r2]. }
  split; [|split].
  - intros s i Hkey Harg.
    destruct (Hsame s i Hkey Harg) as [Hstate Hok].
    split; [exact Hstate|]. split; [exact Hok|]. split; [|split].
    + intros x r1 Hw.
      unfold SpawnTask.Fingerprint, InvokeTask.Fingerprint, bind, or_return.
      rewrite Hkey, Hw. repeat split. by apply Recorder_Write_Err in Hw as [-> _].
    + intros r1 Hw argument. subst argument.
      unfold SpawnTask.Fingerprint, InvokeTask.Fingerprint, bind, or_return, ret.
      rewrite Hkey, Harg, Hw.
      split; [done|]. split.
      * by destruct (encoding.MarshalStable e (InvokeTask.Argument i) r1) as [[[]|x] r2].
      * by apply Recorder_Write_Ok in Hw as [-> _].
    + intros r' Hrun. apply write_then_marshal_output in Hrun as (bs & Hbs & Hout). eauto.
  - intros d. split; [|split].
    + intros r'. apply write_only_output.
    + intros r1 Hw. unfold DeleteTask.Fingerprint. rewrite write_only, Hw.
      split; [done|]. unfold encoding.emitted. by apply Recorder_Write_Ok in Hw as [-> _].
    + intros x r1 Hw. unfold DeleteTask.Fingerprint. rewrite write_only, Hw.
      split; [done|]. apply Recorder_Write_Err in Hw as [Hout _].
      unfold encoding.emitted. by rewrite app_nil_r.
  - intros s.
    exists (InvokeTask.mk (String.list_byte_of_string (SpawnTask.ContractID s))
              (SpawnTask.Argument s)).
    split; [done|].
    by destruct (Hsame s (InvokeTask.mk (String.list_byte_of_string (SpawnTask.ContractID s))
                            (SpawnTask.Argument s)) eq_refl eq_refl) as [-> ->].
Qed.

(** ** The server task *)

Section ServerTask.
Context {Message Identity P : Type}.
Context `{!inventory.Page Identity P} `{!arc.Compiler} `{!Stringer Identity}.
Implicit Types (act : serverTask.t Message Identity P) (w : world Message Identity P).
Implicit Types (tctx : taskContext.t Identity P) (key : bytes).
Implicit Types (instance other : Instance.ptr).

(** An assignment through a pointer is seen through that pointer and
    through no other. *)
Lemma heap_insert (h : Instance.store Message) instance (i : Instance.t Message) :
  (<[instance := i]> h) instance = i.
Proof. apply fn_lookup_insert. Qed.

Lemma heap_insert_ne (h : Instance.store Message) instance other (i : Instance.t Message) :
  other ≠ instance → (<[instance := i]> h) other = h other.
Proof. intros Hne. by apply fn_lookup_insert_ne. Qed.

Lemma writes_snoc (l : list (call.t Message Identity P)) c :
  call.writes (l ++ [c]) =
  call.writes l ++ match c with call.Write key i => [(key, i)] | _ => [] end.
Proof. unfold call.writes. rewrite omap_app. by destruct c. Qed.

Lemma reads_only_ret {A} (a : A) : reads_only (Message:=Message) (Identity:=Identity) (P:=P) (ret a).
Proof. by intros w. Qed.

Lemma reads_only_fail {A} x : reads_only (Message:=Message) (Identity:=Identity) (P:=P) (A:=A) (fail x).
Proof. by intros w. Qed.

Lemma reads_only_lift {A} (r : result A) :
  reads_only (effect.lift (Message:=Message) (Identity:=Identity) (P:=P) r).
Proof. by intros w. Qed.

(** A computation that looks at the world and hands it back. *)
Lemma reads_only_look {A} (f : world Message Identity P → result A) :
  reads_only (λ w, (f w, w)).
Proof. by intros w. Qed.

Lemma reads_only_record (c : call.t Message Identity P) :
  call.is_Write c = false → reads_only (effect.record c).
Proof.
  intros Hc w. repeat split. simpl. rewrite writes_snoc.
  destruct c; try done; by rewrite app_nil_r.
Qed.

Lemma reads_only_bind {A B} (c : M (world Message Identity P) A) (k : A → M _ B) :
  reads_only c → (∀ a, reads_only (k a)) → reads_only (bind c k).
Proof.
  intros Hc Hk w. unfold bind. destruct (Hc w) as (Hp & Hh & Hn & Hw).
  destruct (c w) as [[a|x] w1]; [|done].
  destruct (Hk a w1) as (Hp' & Hh' & Hn' & Hw'). simpl in *. repeat split; congruence.
Qed.

Lemma reads_only_or_return {A} f (c : M (world Message Identity P) A) :
  reads_only c → reads_only (or_return f c).
Proof.
  intros Hc w. unfold or_return. specialize (Hc w). by destruct (c w) as [[a|x] w1].
Qed.

Lemma reads_only_attempt {A} (c : M (world Message Identity P) A) :
  reads_only c → reads_only (attempt c).
Proof. intros Hc w. apply Hc. Qed.

Ltac reads_only_step :=
  lazymatch goal with
  | |- reads_only (bind _ _) => apply reads_only_bind; [|intros ?]
  | |- reads_only (or_return _ _) => apply reads_only_or_return
  | |- reads_only (attempt _) => apply reads_only_attempt
  | |- reads_only (ret _) => apply reads_only_ret
  | |- reads_only (fail _) => apply reads_only_fail
  | |- reads_only (effect.lift _) => apply reads_only_lift
  | |- reads_only (effect.get _ _) => apply reads_only_look
  | |- reads_only (λ w, (_, w)) => apply reads_only_look
  | |- reads_only (effect.record _) => apply reads_only_record; reflexivity
  | |- reads_only (match ?x with _ => _ end) => destruct x
  end.

Lemma Read_reads_only tctx key : reads_only (effect.Read (Message:=Message) tctx key).
Proof. unfold effect.Read. repeat reads_only_step. Qed.

Lemma GetArc_reads_only tctx key : reads_only (effect.GetArc (Message:=Message) tctx key).
Proof. unfold effect.GetArc. repeat reads_only_step. Qed.

Lemma Match_reads_only (access : arc.AccessControl Identity) rule who :
  reads_only (effect.Match (Message:=Message) (P:=P) access rule who).
Proof. unfold effect.Match. repeat reads_only_step. Qed.

Lemma Spawn_reads_only exec (ctx : SpawnContext.t Message Identity P) :
  reads_only (effect.Spawn exec ctx).
Proof. unfold effect.Spawn. repeat reads_only_step. Qed.

Lemma Invoke_reads_only exec (ctx : InvokeContext.t Message Identity P) :
  reads_only (effect.Invoke exec ctx).
Proof. unfold effect.Invoke. repeat reads_only_step. Qed.

Lemma hasAccess_reads_only act tctx key rule :
  reads_only (serverTask.hasAccess act tctx key rule).
Proof.
  unfold serverTask.hasAccess. cbv zeta.
  repeat first [apply GetArc_reads_only | apply Match_reads_only | reads_only_step].
Qed.

(** What is made or assigned in the store comes last in a transition. *)
Lemma fails_clean_reads_only {A} (c : M (world Message Identity P) A) :
  reads_only c → fails_clean c.
Proof. intros Hc w. destruct (Hc w) as (Hp & Hh & Hn & Hw). by repeat split. Qed.

Lemma fails_clean_bind {A B} (c : M (world Message Identity P) A) (k : A → M _ B) :
  reads_only c → (∀ a, fails_clean (k a)) → fails_clean (bind c k).
Proof.
  intros Hc Hk w. unfold bind. destruct (Hc w) as (Hp & Hh & Hn & Hw).
  destruct (c w) as [[a|x] w1]; [|by repeat split].
  destruct (Hk a w1) as (Hp' & Hw' & Hfail). simpl in *.
  split; [congruence|]. split; [congruence|].
  intros Hr. destruct (Hfail Hr). split; congruence.
Qed.

Lemma fails_clean_assign {A} (set : Instance.t Message → A → Instance.t Message)
    instance (v : A) (r : Instance.ptr) :
  fails_clean (let* _ := effect.assign (Identity:=Identity) (P:=P) set instance v in ret r).
Proof. by intros w. Qed.

Lemma fails_clean_new (i : Instance.t Message) :
  fails_clean (effect.new (Identity:=Identity) (P:=P) i).
Proof. by intros w. Qed.

Ltac fails_clean_step :=
  lazymatch goal with
  | |- fails_clean (bind (effect.assign _ _ _) _) => apply fails_clean_assign
  | |- fails_clean (effect.new _) => apply fails_clean_new
  | |- fails_clean (bind _ _) => apply fails_clean_bind; [|intros ?]
  | |- fails_clean (fail _) => apply fails_clean_reads_only, reads_only_fail
  | |- fails_clean (match ?x with _ => _ end) => destruct x
  | |- fails_clean (if ?x then _ else _) => destruct x
  end.

Lemma consumeSpawn_fails_clean act ctx : fails_clean (serverTask.consumeSpawn act ctx).
Proof.
  unfold serverTask.consumeSpawn. cbv zeta.
  repeat first [apply Read_reads_only | apply Spawn_reads_only
               | apply hasAccess_reads_only | fails_clean_step | reads_only_step].
Qed.

Lemma consumeInvoke_fails_clean act ctx : fails_clean (serverTask.consumeInvoke act ctx).
Proof.
  unfold serverTask.consumeInvoke. cbv zeta.
  repeat first [apply Read_reads_only | apply Invoke_reads_only
               | apply hasAccess_reads_only | fails_clean_step | reads_only_step].
Qed.

Lemma consumeDelete_fails_clean act ctx : fails_clean (serverTask.consumeDelete act ctx).
Proof.
  unfold serverTask.consumeDelete. cbv zeta.
  repeat first [apply Read_reads_only | fails_clean_step | reads_only_step].
Qed.

Lemma transition_fails_clean act tctx : fails_clean (serverTask.transition act tctx).
Proof.
  unfold serverTask.transition.
  destruct (serverTask.ClientTask act);
    auto using consumeSpawn_fails_clean, consumeInvoke_fails_clean,
               consumeDelete_fails_clean, fails_clean_reads_only, reads_only_fail.
Qed.

(** C1. Whatever the task, [Consume] first runs its transition, which
    writes nothing to the page.  When the transition fails, [Consume]
    returns its error as it is, and the page, the instances in the store
    and the writes made are what they were: every key reads as before.
    When it yields an instance, [Consume] makes one write, of that
    instance under its key: the page is what that write made of the page
    before, the writes made are the earlier ones and this one, and the
    error, if any, is the one of that write.  The store is then as the
    transition left it, whether the write went through or not: an invoke
    and a delete have assigned to the instance they read before the
    write. *)
Theorem Consume_writes_once_or_never act (ctx : basic.Context Identity) w :
  match serverTask.transition act (taskContext.mk ctx (the_page w)) w with
  | (Err e, w1) =>
    serverTask.Consume act ctx w = (Err e, w1)
    ∧ the_page w1 = the_page w
    ∧ heap w1 = heap w
    ∧ (∀ key, stored w1 key = stored w key)
    ∧ call.writes (calls w1) = call.writes (calls w)
  | (Ok instance, w1) =>
    let key := Instance.Key (heap w1 instance) in
    let written := inventory.Write key instance (the_page w) in
    let after := serverTask.Consume act ctx w in
    the_page after.2 = written.2
    ∧ heap after.2 = heap w1
    ∧ call.writes (calls after.2) = call.writes (calls w) ++ [(key, instance)]
    ∧ after.1 = match written.1 with
                | Ok _ => Ok tt
                | Err e => Err (Errorf "couldn't write instance to page: " e)
                end
  end.
Proof.
  pose proof (transition_fails_clean act (taskContext.mk ctx (the_page w)) w)
    as (Hp & Hw & Hfail).
  unfold serverTask.Consume, bind.
  destruct (serverTask.transition act _ w) as [[instance|e] w1]; simpl in *.
  - unfold effect.get, or_return, effect.Write. rewrite Hp.
    destruct (inventory.Write _ instance (the_page w)) as [[[]|e] p]; simpl;
      by rewrite writes_snoc, Hw.
  - destruct (Hfail eq_refl) as [Hh Hn]. repeat split; try done.
    intros key. unfold stored. by rewrite Hp, Hh.
Qed.

Ltac run :=
  unfold serverTask.Consume, serverTask.transition, serverTask.consumeSpawn,
    serverTask.consumeInvoke, serverTask.consumeDelete, serverTask.hasAccess,
    effect.Read, effect.GetArc, effect.Match, effect.Spawn, effect.Invoke,
    effect.Write, effect.get, effect.assign, effect.new, effect.record, effect.lift,
    bind, or_return, attempt, ret, fail;
  simpl.

(** A spawn at a key that reads back: one read, then the refusal. *)
Lemma consumeSpawn_occupied act (ctx : SpawnContext.t Message Identity P) w :
  let tctx := SpawnContext.Context ctx in
  let id := basic.GetID (taskContext.Context tctx) in
  is_ok (inventory.Read (taskContext.page tctx) id) = true →
  serverTask.consumeSpawn act ctx w
  = (Err "instance already exists",
     mkWorld (the_page w) (heap w) (next w) (calls w ++ [call.Read id])).
Proof. intros tctx id Hread. run. subst tctx id. by rewrite Hread. Qed.

(** A spawn that succeeded yields an instance under the identifier of the
    transaction. *)
Lemma consumeSpawn_Key act (ctx : SpawnContext.t Message Identity P) w instance w1 :
  serverTask.consumeSpawn act ctx w = (Ok instance, w1) →
  Instance.Key (heap w1 instance)
  = basic.GetID (taskContext.Context (SpawnContext.Context ctx)).
Proof.
  run.
  destruct (is_ok (inventory.Read _ _)); [done|].
  destruct (serverTask.contracts act !! _) as [exec|]; [|done].
  destruct (Contract.Spawn exec ctx _) as [[value arcid]|x]; [|done].
  destruct (inventory.GetArc _ arcid) as [access|x]; [|done].
  destruct (arc.Match access _ _); [done|].
  simpl. intros [= <- <-]. simpl. by rewrite (heap_insert (heap w)).
Qed.

(** C3. A spawn whose key already reads back an instance fails with
    "instance already exists" after that one read: no contract is called,
    nothing is written and the page and the store are the ones it was
    given.  Hence, on a page that reads back what was written to it, once
    a spawn has gone through, every spawn under the same transaction
    identifier fails in that way and leaves the page and the store as the
    first spawn left them. *)
Theorem spawn_collision (task : SpawnTask.t Message) contracts encoder
    (ctx : basic.Context Identity) w :
  let act := serverTask.mk (basic.Spawn task) contracts encoder in
  let id := basic.GetID ctx in
  (is_ok (inventory.Read (the_page w) id) = true →
   serverTask.Consume act ctx w
   = (Err "instance already exists",
      mkWorld (the_page w) (heap w) (next w) (calls w ++ [call.Read id])))
  ∧ (inventory.reads_back (the_page w) →
     ∀ w1, serverTask.Consume act ctx w = (Ok tt, w1) →
     ∀ (task2 : SpawnTask.t Message) contracts2 encoder2 (ctx2 : basic.Context Identity),
       basic.GetID ctx2 = id →
       serverTask.Consume (serverTask.mk (basic.Spawn task2) contracts2 encoder2) ctx2 w1
       = (Err "instance already exists",
          mkWorld (the_page w1) (heap w1) (next w1) (calls w1 ++ [call.Read id]))).
Proof.
  intros act id.
  assert (Hfirst : ∀ t c en (cx : basic.Context Identity) w0,
    is_ok (inventory.Read (the_page w0) (basic.GetID cx)) = true →
    serverTask.Consume (serverTask.mk (basic.Spawn t) c en) cx w0
    = (Err "instance already exists",
       mkWorld (the_page w0) (heap w0) (next w0) (calls w0 ++ [call.Read (basic.GetID cx)]))).
  { intros t c en cx w0 Hread. unfold serverTask.Consume, serverTask.transition. simpl.
    erewrite bind_Err; [done|]. by apply consumeSpawn_occupied. }
  split; [apply Hfirst|].
  intros Hback w1 Hrun task2 contracts2 encoder2 ctx2 Hid.
  rewrite <- Hid. apply Hfirst. rewrite Hid.
  revert Hrun. unfold serverTask.Consume, serverTask.transition, bind at 1. simpl.
  set (sctx := SpawnContext.mk (taskContext.mk ctx (the_page w)) task).
  pose proof (consumeSpawn_fails_clean act sctx w) as [Hp _].
  destruct (serverTask.consumeSpawn act sctx w) as [[instance|x] w0] eqn:Hspawn; [|done].
  apply consumeSpawn_Key in Hspawn. simpl in *.
  unfold bind, effect.get, or_return, effect.Write. rewrite Hp, Hspawn. fold id.
  destruct (inventory.Write id instance (the_page w)) as [[[]|x] p] eqn:Hwrite; [|done].
  intros [= <-]. simpl. by eapply Hback.
Qed.

(** C6. A delete reads the instance at its key and nothing else: no
    contract is called and no access control is resolved or matched.  When
    the read fails, so does the delete, and nothing is assigned or
    written; when it yields an instance, [Deleted] is set on that instance,
    in the store, its other four fields staying as they were, and the
    instance is then written back under its key. *)
Theorem delete_marks_deleted (task : DeleteTask.t) contracts encoder
    (ctx : basic.Context Identity) w :
  let act := serverTask.mk (basic.Delete task) contracts encoder in
  let key := DeleteTask.Key task in
  let read := calls w ++ [call.Read key] in
  match inventory.Read (the_page w) key with
  | Err x =>
    serverTask.Consume act ctx w
    = (Err (Errorf "couldn't read the instance: " x),
       mkWorld (the_page w) (heap w) (next w) read)
  | Ok instance =>
    let existing := heap w instance in
    let deleted := Instance.mk (Instance.Key existing) (Instance.ContractID existing)
                     (Instance.AccessControl existing) true (Instance.Value existing) in
    let marked := <[instance := deleted]> (heap w) in
    let written := inventory.Write (Instance.Key existing) instance (the_page w) in
    serverTask.consumeDelete act
      (DeleteContext.mk (taskContext.mk ctx (the_page w)) task) w
    = (Ok instance, mkWorld (the_page w) marked (next w) read)
    ∧ marked instance = deleted
    ∧ (serverTask.Consume act ctx w).2
      = mkWorld written.2 marked (next w)
          (read ++ [call.Write (Instance.Key existing) instance])
    ∧ is_ok (serverTask.Consume act ctx w).1 = is_ok written.1
  end
  ∧ List.filter call.is_Contract (calls (serverTask.Consume act ctx w).2)
    = List.filter call.is_Contract (calls w)
  ∧ List.filter call.is_Access (calls (serverTask.Consume act ctx w).2)
    = List.filter call.is_Access (calls w).
Proof.
  intros act key read. run. fold key.
  destruct (inventory.Read (the_page w) key) as [instance|x]; simpl.
  - rewrite !(heap_insert (heap w)). simpl.
    destruct (inventory.Write _ _ (the_page w)) as [[[]|x] p]; simpl;
      rewrite !List.filter_app; simpl; by rewrite !app_nil_r.
  - rewrite !List.filter_app; simpl; by rewrite !app_nil_r.
Qed.

(** C5. An invoke that succeeds yields the instance that was read at the
    key of the task, the very one the page holds, with its value replaced
    by what the contract of that instance answered: key, contract
    identifier, access control and deletion mark are what they were, and
    so is every other instance in the store. *)
Theorem invoke_replaces_value act (ctx : InvokeContext.t Message Identity P) w instance w1 :
  serverTask.consumeInvoke act ctx w = (Ok instance, w1) →
  ∃ existing exec,
    inventory.Read (taskContext.page (InvokeContext.Context ctx))
      (InvokeTask.Key (InvokeContext.InvokeTask ctx)) = Ok instance
    ∧ heap w instance = existing
    ∧ serverTask.contracts act !! Instance.ContractID existing = Some exec
    ∧ Contract.Invoke exec ctx (heap w) = Ok (Instance.Value (heap w1 instance))
    ∧ Instance.Key (heap w1 instance) = Instance.Key existing
    ∧ Instance.ContractID (heap w1 instance) = Instance.ContractID existing
    ∧ Instance.AccessControl (heap w1 instance) = Instance.AccessControl existing
    ∧ Instance.Deleted (heap w1 instance) = Instance.Deleted existing
    ∧ (∀ other, other ≠ instance → heap w1 other = heap w other).
Proof.
  run.
  destruct (inventory.Read _ _) as [existing|x]; [|done]. simpl.
  destruct (inventory.GetArc _ _) as [access|x]; [|done]. simpl.
  destruct (arc.Match access _ _); [done|]. simpl.
  destruct (serverTask.contracts act !! _) as [exec|] eqn:Hexec; [|done]. simpl.
  destruct (Contract.Invoke exec ctx _) as [value|x] eqn:Hvalue; [|done].
  intros [= <- <-]. simpl. rewrite (heap_insert (heap w)).
  exists (heap w existing), exec. repeat split; try done.
  intros other Hne. by rewrite (heap_insert_ne (heap w)).
Qed.

(** C4. A spawn of a registered contract at a free key calls the spawn of
    that contract before any access control is touched, and then resolves
    the very access control the contract answered and matches the rule
    compiled from the contract identifier and "spawn" against the
    submitter.  When the contract fails there is no access check at all.
    When the check passes, a new instance is made, which has the
    identifier of the transaction as key, the contract identifier of the
    task, the access control and the value the contract answered, and is
    not deleted; no other instance is touched.  At a key that reads back,
    neither the contract nor an access control is called. *)
Theorem spawn_executes_then_authorizes (task : SpawnTask.t Message) contracts encoder
    exec (tctx : taskContext.t Identity P) w :
  let act := serverTask.mk (basic.Spawn task) contracts encoder in
  let ctx := SpawnContext.mk tctx task in
  let id := basic.GetID (taskContext.Context tctx) in
  let who := basic.GetIdentity (taskContext.Context tctx) in
  let rule := arc.Compile (SpawnTask.ContractID task) "spawn" in
  let run := serverTask.consumeSpawn act ctx w in
  contracts !! SpawnTask.ContractID task = Some exec →
  the_page run.2 = the_page w
  ∧ match inventory.Read (taskContext.page tctx) id with
    | Ok _ => calls run.2 = calls w ++ [call.Read id]
    | Err _ =>
      match Contract.Spawn exec ctx (heap w) with
      | Err x =>
        run.1 = Err (Errorf "couldn't execute spawn: " x)
        ∧ calls run.2 = calls w ++ [call.Read id; call.Spawn ctx]
      | Ok (value, arcid) =>
        match inventory.GetArc (taskContext.page tctx) arcid with
        | Err x =>
          run.1 = Err (Errorf "no access: " (Errorf "couldn't read access: " x))
          ∧ calls run.2 = calls w ++ [call.Read id; call.Spawn ctx; call.GetArc arcid]
        | Ok access =>
          calls run.2 = calls w ++ [call.Read id; call.Spawn ctx; call.GetArc arcid;
                                    call.Match rule who]
          ∧ match arc.Match access rule who with
            | Some x => ∃ refusal, run.1 = Err (Errorf "no access: " refusal)
            | None =>
              run.1 = Ok (next w)
              ∧ heap run.2 (next w)
                = Instance.mk id (SpawnTask.ContractID task) arcid false value
              ∧ (∀ other, other ≠ next w → heap run.2 other = heap w other)
            end
        end
      end
    end.
Proof.
  intros act ctx id who rule run Hexec. subst run. run.
  fold id. rewrite Hexec.
  destruct (inventory.Read _ id) as [existing|x0]; simpl; [done|].
  destruct (Contract.Spawn exec ctx _) as [[value arcid]|x1]; simpl;
    [|by rewrite <- !(assoc_L (++))].
  destruct (inventory.GetArc _ arcid) as [access|x2]; simpl;
    [|by rewrite <- !(assoc_L (++))].
  fold who rule.
  destruct (arc.Match access rule who); simpl; rewrite <- !(assoc_L (++)); eauto.
  rewrite (heap_insert (heap w)). repeat split; try done.
  intros other Hne. by rewrite (heap_insert_ne (heap w)).
Qed.

(** C2, as amended. An invoke on an instance that reads back resolves the
    access control of that instance and matches the rule compiled from its
    contract identifier and "invoke" against the submitter before any
    contract is called.  When the access control cannot be resolved or
    refuses, the invoke fails with a "no access" error, no contract is
    called, and page, instance and writes are untouched.  When it allows,
    the contract registered for the instance is looked up and invoked: a
    missing contract or a failing one fails the invoke with nothing
    assigned or written, and a value answered by the contract is assigned
    to the instance, in the store, and the instance is then written back
    under its key. *)
Theorem invoke_authorizes_then_executes (task : InvokeTask.t Message) contracts encoder
    (ctx : basic.Context Identity) w instance :
  let act := serverTask.mk (basic.Invoke task) contracts encoder in
  let key := InvokeTask.Key task in
  let ictx := InvokeContext.mk (taskContext.mk ctx (the_page w)) task in
  let who := basic.GetIdentity ctx in
  let existing := heap w instance in
  let rule := arc.Compile (Instance.ContractID existing) "invoke" in
  let resolved := calls w ++ [call.Read key; call.GetArc (Instance.AccessControl existing)] in
  let matched := resolved ++ [call.Match rule who] in
  inventory.Read (the_page w) key = Ok instance →
  match inventory.GetArc (the_page w) (Instance.AccessControl existing) with
  | Err x =>
    serverTask.Consume act ctx w
    = (Err (Errorf "no access: " (Errorf "couldn't read access: " x)),
       mkWorld (the_page w) (heap w) (next w) resolved)
  | Ok access =>
    match arc.Match access rule who with
    | Some x =>
      serverTask.Consume act ctx w
      = (Err (Errorf "no access: "
                (String_of who +:+ " is refused to '" +:+ rule +:+ "' by "
                   +:+ arc.describe access +:+ ": " +:+ x)),
         mkWorld (the_page w) (heap w) (next w) matched)
    | None =>
      match contracts !! Instance.ContractID existing with
      | None =>
        serverTask.Consume act ctx w
        = (Err ("contract '" +:+ Instance.ContractID existing +:+ "' not found"),
           mkWorld (the_page w) (heap w) (next w) matched)
      | Some exec =>
        match Contract.Invoke exec ictx (heap w) with
        | Err x =>
          serverTask.Consume act ctx w
          = (Err (Errorf "couldn't invoke: " x),
             mkWorld (the_page w) (heap w) (next w) (matched ++ [call.Invoke ictx]))
        | Ok value =>
          let updated := Instance.mk (Instance.Key existing) (Instance.ContractID existing)
                           (Instance.AccessControl existing) (Instance.Deleted existing)
                           value in
          let assigned := <[instance := updated]> (heap w) in
          let written := inventory.Write (Instance.Key existing) instance (the_page w) in
          serverTask.consumeInvoke act ictx w
          = (Ok instance,
             mkWorld (the_page w) assigned (next w) (matched ++ [call.Invoke ictx]))
          ∧ assigned instance = updated
          ∧ (serverTask.Consume act ctx w).2
            = mkWorld written.2 assigned (next w)
                (matched ++ [call.Invoke ictx; call.Write (Instance.Key existing) instance])
          ∧ is_ok (serverTask.Consume act ctx w).1 = is_ok written.1
        end
      end
    end
  end.
Proof.
  intros act key ictx who existing rule resolved matched Hread. subst resolved matched.
  run. fold key. rewrite Hread. simpl. fold existing.
  destruct (inventory.GetArc _ _) as [access|x0]; simpl;
    [|by rewrite <- !(assoc_L (++))].
  fold who rule.
  destruct (arc.Match access rule who); simpl;
    [by rewrite <- !(assoc_L (++))|].
  destruct (contracts !! _) as [exec|]; simpl;
    [|by rewrite <- !(assoc_L (++))].
  fold ictx.
  destruct (Contract.Invoke exec ictx _) as [value|x1]; simpl;
    [|by rewrite <- !(assoc_L (++))].
  rewrite !(heap_insert (heap w)). simpl.
  destruct (inventory.Write _ _ (the_page w)) as [[[]|x2] p]; simpl;
    by rewrite <- !(assoc_L (++)).
Qed.

(** C9, as amended. A read that fails during a spawn, for whatever
    reason, does not stop the spawn and its error is dropped: an
    unregistered contract is reported as such, and a registered one has
    its spawn called next; when that fails the spawn fails with the error
    of the contract, and when it answers and its access control allows,
    the spawn succeeds and yields the new instance. *)
Theorem spawn_drops_read_error (task : SpawnTask.t Message) contracts encoder
    (tctx : taskContext.t Identity P) w x :
  let act := serverTask.mk (basic.Spawn task) contracts encoder in
  let ctx := SpawnContext.mk tctx task in
  let id := basic.GetID (taskContext.Context tctx) in
  let who := basic.GetIdentity (taskContext.Context tctx) in
  let rule := arc.Compile (SpawnTask.ContractID task) "spawn" in
  let run := serverTask.consumeSpawn act ctx w in
  inventory.Read (taskContext.page tctx) id = Err x →
  match contracts !! SpawnTask.ContractID task with
  | None =>
    run = (Err ("contract '" +:+ SpawnTask.ContractID task +:+ "' not found"),
           mkWorld (the_page w) (heap w) (next w) (calls w ++ [call.Read id]))
  | Some exec =>
    (∃ rest, calls run.2 = calls w ++ [call.Read id; call.Spawn ctx] ++ rest)
    ∧ match Contract.Spawn exec ctx (heap w) with
      | Err y => run.1 = Err (Errorf "couldn't execute spawn: " y)
      | Ok (value, arcid) =>
        ∀ access, inventory.GetArc (taskContext.page tctx) arcid = Ok access →
                  arc.Match access rule who = None →
                  run.1 = Ok (next w)
                  ∧ heap run.2 (next w)
                    = Instance.mk id (SpawnTask.ContractID task) arcid false value
      end
  end.
Proof.
  intros act ctx id who rule run Hread. subst run. run.
  fold id. rewrite Hread. simpl.
  destruct (contracts !! _) as [exec|]; simpl; [|done].
  destruct (Contract.Spawn exec ctx _) as [[value arcid]|y]; simpl.
  - split.
    + destruct (inventory.GetArc _ arcid) as [access|x0]; simpl.
      * destruct (arc.Match access _ _); simpl; rewrite <- !(assoc_L (++)); simpl; eauto.
      * rewrite <- !(assoc_L (++)); simpl; eauto.
    + intros access -> Hmatch. simpl. fold who rule. rewrite Hmatch. simpl.
      by rewrite (heap_insert (heap w)).
  - split; [|done]. exists []. by rewrite <- !(assoc_L (++)).
Qed.

End ServerTask.

(** ** The coin contract at work *)

Import example.

(** The scenario of the coin: spawned at [k1] by [I1] with a balance of
    100, 30 taken from it, then deleted. *)
Example coin_scenario :
  stored spawned k1 = Ok (coin_at_k1 A0 100)
  ∧ stored spent k1 = Ok (coin_at_k1 A0 70)
  ∧ stored (serverTask.Consume delete_coin (tx k1 "I1") spent).2 k1
    = Ok (Instance.mk k1 "coin" A0 true (balance 70))
  ∧ (serverTask.Consume (invoke_coin (-30)) (tx k1 "I1") guarded).1
    = Err "no access: I1 is refused to 'coin:invoke' by allow-list: unauthorized"
  ∧ (serverTask.Consume (task (basic.Foreign "string")) (tx k1 "I1") spent)
    = (Err "invalid task type 'string'", spent).
Proof. by vm_compute. Qed.

Lemma Register_lookup {Message Identity P} (f : TaskFactory.t Message Identity P) name contract :
  TaskFactory.contracts (TaskFactory.Register f name contract) !! name = Some contract.
Proof. apply lookup_insert_eq. Qed.

Lemma mem_reads_back {Identity} (p : mem.Page Identity) :
  mem.ErrRead p = None → inventory.reads_back p.
Proof.
  intros Hread key instance p'. simpl. unfold mem.Write, mem.Read.
  destruct (mem.ErrWrite p); [done|]. intros [= <-]. simpl.
  by rewrite Hread, lookup_insert_eq.
Qed.

(** Against C2 as stated: the access control of the coin allows [I1] to
    invoke it, and still the invoke fails, the contract refusing to take
    130 from a balance of 100; the coin is as it was. *)
Lemma invoke_allowed_yet_fails :
  stored spawned k1 = Ok (coin_at_k1 A0 100)
  ∧ mem.GetArc (the_page spawned) A0 = Ok allow_all
  ∧ arc.Match allow_all (arc.Compile "coin" "invoke") "I1" = None
  ∧ (serverTask.Consume (invoke_coin (-130)) (tx k1 "I1") spawned).1
    = Err "couldn't invoke: insufficient balance"
  ∧ the_page (serverTask.Consume (invoke_coin (-130)) (tx k1 "I1") spawned).2
    = the_page spawned
  ∧ stored (serverTask.Consume (invoke_coin (-130)) (tx k1 "I1") spawned).2 k1
    = Ok (coin_at_k1 A0 100).
Proof. by vm_compute. Qed.

(** Against C8 as stated: two invokes with one key whose arguments are
    different messages, of different types and both without fields, emit
    the same bytes. *)
Lemma Fingerprint_same_for_distinct_arguments :
  InvokeTask.Key (InvokeTask.mk k1 empty) = InvokeTask.Key (InvokeTask.mk k1 void)
  ∧ InvokeTask.Argument (InvokeTask.mk k1 empty) ≠ InvokeTask.Argument (InvokeTask.mk k1 void)
  ∧ (InvokeTask.Fingerprint (InvokeTask.mk k1 empty) encoder recorder).1 = Ok tt
  ∧ (InvokeTask.Fingerprint (InvokeTask.mk k1 void) encoder recorder).1 = Ok tt
  ∧ encoding.output (InvokeTask.Fingerprint (InvokeTask.mk k1 empty) encoder recorder).2
    = encoding.output (InvokeTask.Fingerprint (InvokeTask.mk k1 void) encoder recorder).2.
Proof. repeat split; try by vm_compute. Qed.

(** Against C9 as stated: on a page that holds the coin at [k1] with a
    balance of 70 and whose reads fail with a storage failure, a spawn at
    [k1] does not stop at the failure: the contract is called, the spawn
    succeeds, and the page holds a new coin with a balance of 100 at
    [k1]. *)
Lemma spawn_survives_storage_failure :
  mem.Read (the_page unreadable) k1 = Err "storage failure"
  ∧ mem.entries (the_page unreadable) !! k1 = Some 0
  ∧ heap unreadable 0 = coin_at_k1 A0 70
  ∧ (serverTask.Consume spawn_coin (tx k1 "I1") unreadable).1 = Ok tt
  ∧ calls (serverTask.Consume spawn_coin (tx k1 "I1") unreadable).2
    = [call.Read k1;
       call.Spawn (SpawnContext.mk (taskContext.mk (tx k1 "I1") (the_page unreadable))
                     (SpawnTask.mk "coin" empty));
       call.GetArc A0;
       call.Match "coin:spawn" "I1";
       call.Write k1 1]
  ∧ mem.entries (the_page (serverTask.Consume spawn_coin (tx k1 "I1") unreadable).2) !! k1
    = Some 1
  ∧ heap (serverTask.Consume spawn_coin (tx k1 "I1") unreadable).2 1 = coin_at_k1 A0 100.
Proof. by vm_compute. Qed.

(** [I1] takes 30 from the coin at [k1]: the check comes first, then the
    contract, then the assignment to the coin, then the one write. *)
Lemma invoke_authorizes_then_executes_at_k1 :
  mem.Read (the_page spawned) k1 = Ok 0
  ∧ heap spawned 0 = coin_at_k1 A0 100
  ∧ serverTask.consumeInvoke (invoke_coin (-30))
      (InvokeContext.mk (taskContext.mk (tx k1 "I1") (the_page spawned))
         (InvokeTask.mk k1 (delta (-30))))
      spawned
    = (Ok 0,
       mkWorld (the_page spawned) (<[0 := coin_at_k1 A0 70]> (heap spawned)) (next spawned)
         [call.Read k1; call.GetArc A0; call.Match "coin:invoke" "I1";
          call.Invoke (InvokeContext.mk (taskContext.mk (tx k1 "I1") (the_page spawned))
                         (InvokeTask.mk k1 (delta (-30))))])
  ∧ (<[0 := coin_at_k1 A0 70]> (heap spawned)) 0 = coin_at_k1 A0 70
  ∧ (serverTask.Consume (invoke_coin (-30)) (tx k1 "I1") spawned).2
    = mkWorld (the_page spent) (<[0 := coin_at_k1 A0 70]> (heap spawned)) (next spawned)
        [call.Read k1; call.GetArc A0; call.Match "coin:invoke" "I1";
         call.Invoke (InvokeContext.mk (taskContext.mk (tx k1 "I1") (the_page spawned))
                        (InvokeTask.mk k1 (delta (-30))));
         call.Write k1 0]
  ∧ is_ok (serverTask.Consume (invoke_coin (-30)) (tx k1 "I1") spawned).1 = true.
Proof.
  split; [by vm_compute|]. split; [by vm_compute|].
  exact (invoke_authorizes_then_executes (InvokeTask.mk k1 (delta (-30))) registry encoder
           (tx k1 "I1") spawned 0 eq_refl).
Defined.

(** A second spawn at [k1] is refused and leaves the page and the coin as
    the first spawn left them. *)
Lemma spawn_collision_at_k1 :
  inventory.reads_back genesis
  ∧ serverTask.Consume spawn_coin (tx k1 "I1") (fresh genesis)
    = (Ok tt, (serverTask.Consume spawn_coin (tx k1 "I1") (fresh genesis)).2)
  ∧ serverTask.Consume (task (basic.Spawn (SpawnTask.mk "coin" (delta 1)))) (tx k1 "I2")
      (serverTask.Consume spawn_coin (tx k1 "I1") (fresh genesis)).2
    = (Err "instance already exists",
       mkWorld (the_page spawned) (heap spawned) (next spawned)
         (calls (serverTask.Consume spawn_coin (tx k1 "I1") (fresh genesis)).2
          ++ [call.Read k1])).
Proof.
  assert (Hback : inventory.reads_back genesis) by (by apply mem_reads_back).
  assert (Hrun : serverTask.Consume spawn_coin (tx k1 "I1") (fresh genesis)
                 = (Ok tt, (serverTask.Consume spawn_coin (tx k1 "I1") (fresh genesis)).2))
    by (by vm_compute).
  split; [exact Hback|]. split; [exact Hrun|].
  exact (proj2 (spawn_collision (SpawnTask.mk "coin" empty) registry encoder
                  (tx k1 "I1") (fresh genesis))
           Hback _ Hrun (SpawnTask.mk "coin" (delta 1)) registry encoder (tx k1 "I2") eq_refl).
Defined.

(** The spawn of the coin at [k1]: the contract is called before its
    access control is resolved and matched, and the coin is made. *)
Lemma spawn_executes_then_authorizes_at_k1 :
  registry !! "coin" = Some coin
  ∧ the_page (serverTask.consumeSpawn spawn_coin
                (SpawnContext.mk (taskContext.mk (tx k1 "I1") genesis) (SpawnTask.mk "coin" empty))
                (fresh genesis)).2 = genesis
  ∧ calls (serverTask.consumeSpawn spawn_coin
             (SpawnContext.mk (taskContext.mk (tx k1 "I1") genesis) (SpawnTask.mk "coin" empty))
             (fresh genesis)).2
    = [call.Read k1;
       call.Spawn (SpawnContext.mk (taskContext.mk (tx k1 "I1") genesis)
                     (SpawnTask.mk "coin" empty));
       call.GetArc A0;
       call.Match "coin:spawn" "I1"]
  ∧ (serverTask.consumeSpawn spawn_coin
       (SpawnContext.mk (taskContext.mk (tx k1 "I1") genesis) (SpawnTask.mk "coin" empty))
       (fresh genesis)).1
    = Ok 0
  ∧ heap (serverTask.consumeSpawn spawn_coin
            (SpawnContext.mk (taskContext.mk (tx k1 "I1") genesis) (SpawnTask.mk "coin" empty))
            (fresh genesis)).2 0
    = coin_at_k1 A0 100
  ∧ (∀ other, other ≠ 0 →
       heap (serverTask.consumeSpawn spawn_coin
               (SpawnContext.mk (taskContext.mk (tx k1 "I1") genesis)
                  (SpawnTask.mk "coin" empty))
               (fresh genesis)).2 other
       = blank other).
Proof.
  split; [by vm_compute|].
  exact (spawn_executes_then_authorizes (SpawnTask.mk "coin" empty) registry encoder coin
           (taskContext.mk (tx k1 "I1") genesis) (fresh genesis) eq_refl).
Defined.

(** The invoke that takes 30 from the coin keeps all of it but the value. *)
Lemma invoke_replaces_value_at_k1 :
  serverTask.consumeInvoke (invoke_coin (-30))
    (InvokeContext.mk (taskContext.mk (tx k1 "I1") (the_page spawned))
       (InvokeTask.mk k1 (delta (-30))))
    spawned
  = (Ok 0,
     (serverTask.consumeInvoke (invoke_coin (-30))
        (InvokeContext.mk (taskContext.mk (tx k1 "I1") (the_page spawned))
           (InvokeTask.mk k1 (delta (-30))))
        spawned).2)
  ∧ heap (serverTask.consumeInvoke (invoke_coin (-30))
            (InvokeContext.mk (taskContext.mk (tx k1 "I1") (the_page spawned))
               (InvokeTask.mk k1 (delta (-30))))
            spawned).2 0
    = coin_at_k1 A0 70
  ∧ ∃ existing exec,
      mem.Read (the_page spawned) k1 = Ok 0
      ∧ heap spawned 0 = existing
      ∧ registry !! Instance.ContractID existing = Some exec
      ∧ Contract.Invoke exec
          (InvokeContext.mk (taskContext.mk (tx k1 "I1") (the_page spawned))
             (InvokeTask.mk k1 (delta (-30)))) (heap spawned) = Ok (balance 70)
      ∧ k1 = Instance.Key existing
      ∧ "coin" = Instance.ContractID existing
      ∧ A0 = Instance.AccessControl existing
      ∧ false = Instance.Deleted existing
      ∧ (∀ other, other ≠ 0 →
           heap (serverTask.consumeInvoke (invoke_coin (-30))
                   (InvokeContext.mk (taskContext.mk (tx k1 "I1") (the_page spawned))
                      (InvokeTask.mk k1 (delta (-30))))
                   spawned).2 other
           = heap spawned other).
Proof.
  assert (Hrun : serverTask.consumeInvoke (invoke_coin (-30))
    (InvokeContext.mk (taskContext.mk (tx k1 "I1") (the_page spawned))
       (InvokeTask.mk k1 (delta (-30))))
    spawned
  = (Ok 0,
     (serverTask.consumeInvoke (invoke_coin (-30))
        (InvokeContext.mk (taskContext.mk (tx k1 "I1") (the_page spawned))
           (InvokeTask.mk k1 (delta (-30))))
        spawned).2)) by (by vm_compute).
  split; [exact Hrun|]. split; [by vm_compute|].
  exact (invoke_replaces_value _ _ _ _ _ Hrun).
Defined.

(** The fingerprint of a spawn of the coin: the four bytes of "coin" and
    then the serialized argument; on a writer that refuses, the error of
    the writer. *)
Lemma Fingerprint_writes_coin :
  (∃ bs, encoding.stable encoder (delta 5) = Ok bs
         ∧ encoding.output (SpawnTask.Fingerprint (SpawnTask.mk "coin" (delta 5))
                              encoder recorder).2
           = encoding.output recorder ++ String.list_byte_of_string "coin" ++ bs)
  ∧ SpawnTask.Fingerprint (SpawnTask.mk "coin" (delta 5)) encoder
      (encoding.mkRecorder fake.NewBadHash [])
    = (Err "couldn't write contract: fake error", encoding.mkRecorder fake.NewBadHash [])
  ∧ InvokeTask.Fingerprint (InvokeTask.mk k1 (delta 5)) (fake.BadMarshalStableEncoder message)
      recorder
    = (Err "couldn't write argument: fake error",
       encoding.mkRecorder (fake.mkHash 0 None (Some [[k1]])) k1)
  ∧ (InvokeTask.Fingerprint (InvokeTask.mk k1 (delta 5)) encoder
       (encoding.mkRecorder (fake.NewBadHashWithDelay 1) [])).1
    = Err "couldn't write argument: fake error".
Proof.
  split; [|split; [|split]].
  - refine (proj1 (proj1 (Fingerprint_writes encoder recorder)
                     (SpawnTask.mk "coin" (delta 5))) _ _).
    by vm_compute.
  - refine (proj1 (proj2 (proj1 (Fingerprint_writes encoder
                                   (encoding.mkRecorder fake.NewBadHash []))
                            (SpawnTask.mk "coin" (delta 5)))) "fake error" _ _).
    by vm_compute.
  - refine (proj1 (proj2 (proj2 (proj1 (proj2
              (Fingerprint_writes (fake.BadMarshalStableEncoder message) recorder))
              (InvokeTask.mk k1 (delta 5))))) "fake error" _ _ _);
      by vm_compute.
  - refine (f_equal fst
              (proj1 (proj2 (proj2 (proj2 (proj1 (proj2
                 (Fingerprint_writes encoder
                    (encoding.mkRecorder (fake.NewBadHashWithDelay 1) [])))
                 (InvokeTask.mk k1 (delta 5))))))
                 "fake error" (String.list_byte_of_string "{delta:5;}")
                 (encoding.mkRecorder (fake.mkHash 0 (Some "fake error") None) k1)
                 (encoding.mkRecorder (fake.mkHash 0 (Some "fake error") None) k1)
                 _ _ _));
      by vm_compute.
Defined.

(** Two invokes with the same argument at [k1] and at [A0] emit different
    bytes, whatever two replicas run them. *)
Lemma Fingerprint_deterministic_at_k1 :
  (∀ m, encoding.stable encoder m = encoding.stable encoder m)
  ∧ ∀ fa fb,
      encoding.emitted recorder
        (InvokeTask.Fingerprint (InvokeTask.mk k1 (delta 5)) encoder recorder).2 fa →
      encoding.emitted recorder
        (InvokeTask.Fingerprint (InvokeTask.mk A0 (delta 5)) encoder recorder).2 fb →
      fa ≠ fb.
Proof.
  split; [done|]. intros fa fb Ha Hb.
  refine (proj1 (proj1 (proj2 (proj2 (proj2 (proj2
            (Fingerprint_deterministic encoder encoder recorder recorder (λ m, eq_refl))))))
            (InvokeTask.mk k1 (delta 5)) (InvokeTask.mk A0 (delta 5)) _ _ fa fb _ _ Ha Hb) _ _);
    by vm_compute.
Defined.

(** On the page whose reads fail, the spawn of the coin at [k1] goes
    through. *)
Lemma spawn_drops_read_error_at_k1 :
  mem.Read (the_page unreadable) k1 = Err "storage failure"
  ∧ (∃ rest,
       calls (serverTask.consumeSpawn spawn_coin
                (SpawnContext.mk (taskContext.mk (tx k1 "I1") (the_page unreadable))
                   (SpawnTask.mk "coin" empty)) unreadable).2
       = [] ++ [call.Read k1;
                call.Spawn (SpawnContext.mk (taskContext.mk (tx k1 "I1") (the_page unreadable))
                              (SpawnTask.mk "coin" empty))] ++ rest)
  ∧ (serverTask.consumeSpawn spawn_coin
       (SpawnContext.mk (taskContext.mk (tx k1 "I1") (the_page unreadable))
          (SpawnTask.mk "coin" empty)) unreadable).1
    = Ok 1
  ∧ heap (serverTask.consumeSpawn spawn_coin
            (SpawnContext.mk (taskContext.mk (tx k1 "I1") (the_page unreadable))
               (SpawnTask.mk "coin" empty)) unreadable).2 1
    = coin_at_k1 A0 100.
Proof.
  split; [by vm_compute|].
  pose proof (spawn_drops_read_error (SpawnTask.mk "coin" empty) registry encoder
                (taskContext.mk (tx k1 "I1") (the_page unreadable)) unreadable
                "storage failure" eq_refl) as [Hcalls Hrun].
  split; [exact Hcalls|].
  exact (Hrun allow_all eq_refl eq_refl).
Defined.

(** A spawn of the contract "k1" and an invoke at the key [k1], with one
    argument, both succeed and leave the writer in the same state, having
    emitted the same twelve bytes; a delete at [k1] succeeds, having
    emitted the two bytes of the key. *)
Lemma Fingerprint_untagged_at_k1 :
  SpawnTask.Fingerprint (SpawnTask.mk "k1" (delta 5)) encoder recorder
  = InvokeTask.Fingerprint (InvokeTask.mk k1 (delta 5)) encoder recorder
  ∧ InvokeTask.Fingerprint (InvokeTask.mk k1 (delta 5)) encoder recorder
    = (Ok tt,
       encoding.mkRecorder
         (fake.mkHash 0 None (Some [[k1]; [String.list_byte_of_string "{delta:5;}"]]))
         (String.list_byte_of_string "k1{delta:5;}"))
  ∧ DeleteTask.Fingerprint (DeleteTask.mk k1) encoder recorder
    = (Ok tt, encoding.mkRecorder (fake.mkHash 0 None (Some [[k1]])) k1)
  ∧ encoding.emitted recorder (encoding.mkRecorder (fake.mkHash 0 None (Some [[k1]])) k1) k1.
Proof.
  pose proof (Fingerprint_untagged encoder recorder) as [Htwin [Hdelete _]].
  destruct (Htwin (SpawnTask.mk "k1" (delta 5)) (InvokeTask.mk k1 (delta 5)) eq_refl eq_refl)
    as (_ & _ & _ & Hfirst & _).
  destruct (Hfirst (encoding.mkRecorder (fake.mkHash 0 None (Some [[k1]])) k1) eq_refl)
    as (Hsame & Hinvoke & _).
  split; [exact Hsame|]. split; [exact Hinvoke|].
  exact (proj1 (proj2 (Hdelete (DeleteTask.mk k1)))
           (encoding.mkRecorder (fake.mkHash 0 None (Some [[k1]])) k1) eq_refl).
Defined.

(** * More of the package [contract] *)

Section MoreServerTask.
Context {Message Identity P : Type}.
Context `{!inventory.Page Identity P} `{!arc.Compiler} `{!Stringer Identity}.
Implicit Types (w : world Message Identity P) (key : bytes) (instance : Instance.ptr).

Ltac unfold_task :=
  unfold serverTask.Consume, serverTask.transition, serverTask.consumeSpawn,
    serverTask.consumeInvoke, serverTask.consumeDelete, serverTask.hasAccess,
    effect.Read, effect.GetArc, effect.Match, effect.Spawn, effect.Invoke,
    effect.Write, effect.get, effect.assign, effect.new, effect.record, effect.lift,
    bind, or_return, attempt, ret, fail;
  simpl.

(** X1. An invoke at a key that does not read fails with the error of the
    read, prefixed, after that one read: no access control is resolved, no
    contract is called, nothing is assigned and nothing is written. *)
Theorem invoke_requires_instance (task : InvokeTask.t Message) contracts encoder
    (ctx : basic.Context Identity) w x :
  inventory.Read (the_page w) (InvokeTask.Key task) = Err x →
  serverTask.Consume (serverTask.mk (basic.Invoke task) contracts encoder) ctx w
  = (Err (Errorf "couldn't read the instance: " x),
     mkWorld (the_page w) (heap w) (next w) (calls w ++ [call.Read (InvokeTask.Key task)])).
Proof. intros Hread. unfold_task. by rewrite Hread. Qed.

(** X2. Registering under a name makes that contract the one of the name,
    whatever was registered under it before, and leaves every other name
    as it was; a new factory has no contract under any name. *)
Theorem Register_overwrites (f : TaskFactory.t Message Identity P) name c1 c2 :
  TaskFactory.Register (TaskFactory.Register f name c1) name c2
  = TaskFactory.Register f name c2
  ∧ TaskFactory.contracts (TaskFactory.Register f name c2) !! name = Some c2
  ∧ (∀ other, other ≠ name →
       TaskFactory.contracts (TaskFactory.Register f name c2) !! other
       = TaskFactory.contracts f !! other)
  ∧ TaskFactory.encoder (TaskFactory.Register f name c2) = TaskFactory.encoder f
  ∧ (∀ (encoder : encoding.ProtoMarshaler Message) other,
       TaskFactory.contracts (TaskFactory.NewTaskFactory (Identity:=Identity) (P:=P) encoder)
         !! other = None).
Proof.
  unfold TaskFactory.Register, TaskFactory.NewTaskFactory. simpl.
  split; [by rewrite insert_insert_eq|].
  split; [by rewrite lookup_insert_eq|].
  split; [intros other Hne; by rewrite lookup_insert_ne|].
  split; [done|].
  intros encoder other. by rewrite lookup_empty.
Qed.

(** X3. A spawn runs the contract registered last under the contract
    identifier of the task: what the factory held before, under that name
    or another, does not matter; and with the contracts of a new factory
    every spawn at a key that does not read fails for want of a contract,
    after the one read. *)
Theorem spawn_resolves_registered (f : TaskFactory.t Message Identity P)
    (task : SpawnTask.t Message) c encoder (ctx : SpawnContext.t Message Identity P) w :
  serverTask.consumeSpawn
    (serverTask.mk (basic.Spawn task)
       (TaskFactory.contracts (TaskFactory.Register f
          (SpawnTask.ContractID (SpawnContext.SpawnTask ctx)) c)) encoder) ctx w
  = serverTask.consumeSpawn
      (serverTask.mk (basic.Spawn task)
         {[ SpawnTask.ContractID (SpawnContext.SpawnTask ctx) := c ]} encoder) ctx w
  ∧ (is_ok (inventory.Read (taskContext.page (SpawnContext.Context ctx))
              (basic.GetID (taskContext.Context (SpawnContext.Context ctx)))) = false →
     serverTask.consumeSpawn
       (serverTask.mk (basic.Spawn task)
          (TaskFactory.contracts (TaskFactory.NewTaskFactory encoder)) encoder) ctx w
     = (Err ("contract '" +:+ SpawnTask.ContractID (SpawnContext.SpawnTask ctx)
               +:+ "' not found"),
        mkWorld (the_page w) (heap w) (next w)
          (calls w ++ [call.Read (basic.GetID (taskContext.Context
                                                  (SpawnContext.Context ctx)))]))).
Proof.
  split.
  - unfold_task. by rewrite lookup_insert_eq, lookup_singleton_eq.
  - intros Hread. unfold_task. by rewrite Hread, lookup_empty.
Qed.

(** X4. The deletion mark stops nothing.  On a page that reads back what
    was written to it, once a delete has gone through: the instance reads
    back marked; a spawn under its key is refused as for any instance; a
    second delete marks the same instance again, which changes nothing in
    it; and an invoke that its access control allows and its contract
    answers succeeds as before, assigning the value to the instance, which
    stays marked. *)
Theorem deleted_instance_stays_live (task : DeleteTask.t) contracts encoder
    (ctx : basic.Context Identity) w w1 instance :
  let existing := heap w instance in
  let key := Instance.Key existing in
  let deleted := Instance.mk key (Instance.ContractID existing)
                   (Instance.AccessControl existing) true (Instance.Value existing) in
  inventory.reads_written (the_page w) →
  inventory.Read (the_page w) (DeleteTask.Key task) = Ok instance →
  serverTask.Consume (serverTask.mk (basic.Delete task) contracts encoder) ctx w = (Ok tt, w1) →
  inventory.Read (the_page w1) key = Ok instance
  ∧ heap w1 instance = deleted
  ∧ stored w1 key = Ok deleted
  ∧ (∀ (task2 : SpawnTask.t Message) contracts2 encoder2 (ctx2 : basic.Context Identity),
       basic.GetID ctx2 = key →
       serverTask.Consume (serverTask.mk (basic.Spawn task2) contracts2 encoder2) ctx2 w1
       = (Err "instance already exists",
          mkWorld (the_page w1) (heap w1) (next w1) (calls w1 ++ [call.Read key])))
  ∧ (∀ contracts2 encoder2 (ctx2 : basic.Context Identity),
       let again := serverTask.consumeDelete
                      (serverTask.mk (basic.Delete (DeleteTask.mk key)) contracts2 encoder2)
                      (DeleteContext.mk (taskContext.mk ctx2 (the_page w1)) (DeleteTask.mk key))
                      w1 in
       again = (Ok instance,
                mkWorld (the_page w1) (<[instance := deleted]> (heap w1)) (next w1)
                  (calls w1 ++ [call.Read key]))
       ∧ ∀ other, heap again.2 other = heap w1 other)
  ∧ (∀ (task2 : InvokeTask.t Message) contracts2 encoder2 (ctx2 : basic.Context Identity)
       access exec value,
       let ictx := InvokeContext.mk (taskContext.mk ctx2 (the_page w1)) task2 in
       let rule := arc.Compile (Instance.ContractID existing) "invoke" in
       let updated := Instance.mk key (Instance.ContractID existing)
                        (Instance.AccessControl existing) true value in
       InvokeTask.Key task2 = key →
       inventory.GetArc (the_page w1) (Instance.AccessControl existing) = Ok access →
       arc.Match access rule (basic.GetIdentity ctx2) = None →
       contracts2 !! Instance.ContractID existing = Some exec →
       Contract.Invoke exec ictx (heap w1) = Ok value →
       serverTask.consumeInvoke
         (serverTask.mk (basic.Invoke task2) contracts2 encoder2) ictx w1
       = (Ok instance,
          mkWorld (the_page w1) (<[instance := updated]> (heap w1)) (next w1)
            (calls w1 ++ [call.Read key; call.GetArc (Instance.AccessControl existing);
                          call.Match rule (basic.GetIdentity ctx2); call.Invoke ictx]))).
Proof.
  intros existing key deleted Hback Hread Hrun.
  assert (inventory.Read (the_page w1) key = Ok instance
          ∧ heap w1 instance = deleted) as [Hkey Hdeleted].
  { revert Hrun. unfold_task. rewrite Hread. simpl.
    rewrite (heap_insert (heap w)). simpl. fold existing key deleted.
    destruct (inventory.Write key instance (the_page w)) as [[[]|x] p] eqn:Hwrite; [|done].
    intros [= <-]. simpl. split; [by eapply Hback|]. by rewrite (heap_insert (heap w)). }
  split; [exact Hkey|]. split; [exact Hdeleted|]. split; [|split; [|split]].
  - unfold stored. by rewrite Hkey, Hdeleted.
  - intros task2 contracts2 encoder2 ctx2 Hid. unfold_task. by rewrite Hid, Hkey.
  - intros contracts2 encoder2 ctx2 again. subst again. unfold_task. rewrite Hkey. simpl.
    rewrite Hdeleted. split; [done|].
    intros other. destruct (decide (other = instance)) as [->|Hne].
    + by rewrite (heap_insert (heap w1)).
    + by rewrite (heap_insert_ne (heap w1)).
  - intros task2 contracts2 encoder2 ctx2 access exec value ictx rule updated
      Hk Harc Hmatch Hexec Hvalue.
    subst updated rule deleted key existing. simpl in *.
    unfold_task. rewrite Hk, Hkey. simpl. rewrite Hdeleted. simpl. rewrite Harc. simpl.
    rewrite Hmatch. simpl. rewrite Hdeleted. simpl. rewrite Hexec. simpl. fold ictx.
    rewrite Hvalue. simpl. rewrite Hdeleted. simpl.
    by rewrite <- !(assoc_L (++)).
Qed.

(** X23. An assignment is not taken back when the write fails.  When the
    page refuses the write of [Consume] and still answers the same pointer
    under the key, [Consume] returns the error of the write, and yet the
    instance found under the key has changed: after a delete it is
    marked, and after an invoke it has the value the contract answered. *)
Theorem failed_write_keeps_assignment contracts encoder (ctx : basic.Context Identity)
    w key instance x (p' : P) :
  let existing := heap w instance in
  inventory.Read (the_page w) key = Ok instance →
  inventory.Write (Instance.Key existing) instance (the_page w) = (Err x, p') →
  inventory.Read p' key = Ok instance →
  stored w key = Ok existing
  ∧ (let after := serverTask.Consume
                    (serverTask.mk (basic.Delete (DeleteTask.mk key)) contracts encoder)
                    ctx w in
     after.1 = Err (Errorf "couldn't write instance to page: " x)
     ∧ stored after.2 key = Ok (Instance.with_Deleted existing true))
  ∧ (∀ (task : InvokeTask.t Message) access exec value,
       let ictx := InvokeContext.mk (taskContext.mk ctx (the_page w)) task in
       let after := serverTask.Consume
                      (serverTask.mk (basic.Invoke task) contracts encoder) ctx w in
       InvokeTask.Key task = key →
       inventory.GetArc (the_page w) (Instance.AccessControl existing) = Ok access →
       arc.Match access (arc.Compile (Instance.ContractID existing) "invoke")
         (basic.GetIdentity ctx) = None →
       contracts !! Instance.ContractID existing = Some exec →
       Contract.Invoke exec ictx (heap w) = Ok value →
       after.1 = Err (Errorf "couldn't write instance to page: " x)
       ∧ stored after.2 key = Ok (Instance.with_Value existing value)).
Proof.
  intros existing Hread Hwrite Hback. split; [|split].
  - unfold stored. by rewrite Hread.
  - unfold_task. rewrite Hread. simpl. rewrite (heap_insert (heap w)). simpl.
    fold existing. rewrite Hwrite. simpl. split; [done|].
    unfold stored. simpl. by rewrite Hback, (heap_insert (heap w)).
  - intros task access exec value ictx after Hkey Harc Hmatch Hexec Hvalue.
    subst after existing. simpl in *.
    unfold_task. rewrite Hkey, Hread. simpl. rewrite Harc. simpl.
    rewrite Hmatch. simpl. rewrite Hexec. simpl. fold ictx. rewrite Hvalue. simpl.
    rewrite (heap_insert (heap w)). simpl. rewrite Hwrite. simpl.
    split; [done|].
    unfold stored. simpl. by rewrite Hback, (heap_insert (heap w)).
Qed.

(** X5. With [fake.BadMarshalStableEncoder] no spawn and no invoke has a
    fingerprint: once the first write is through, the fingerprint fails
    with "couldn't write argument: fake error" and the writer has seen
    nothing of the argument.  The fingerprint of a delete is the same
    under every encoder. *)
Theorem Fingerprint_with_bad_encoder {W} `{!encoding.Writer W} (v : W) :
  (∀ act : SpawnTask.t Message,
     let run := SpawnTask.Fingerprint act (fake.BadMarshalStableEncoder Message) v in
     is_ok run.1 = false
     ∧ ∀ w1 : W, encoding.Write (String.list_byte_of_string (SpawnTask.ContractID act)) v
             = (Ok tt, w1) →
             run = (Err "couldn't write argument: fake error", w1))
  ∧ (∀ act : InvokeTask.t Message,
       let run := InvokeTask.Fingerprint act (fake.BadMarshalStableEncoder Message) v in
       is_ok run.1 = false
       ∧ ∀ w1 : W, encoding.Write (InvokeTask.Key act) v = (Ok tt, w1) →
               run = (Err "couldn't write argument: fake error", w1))
  ∧ (∀ (a : DeleteTask.t) (e : encoding.ProtoMarshaler Message),
       DeleteTask.Fingerprint a e v
       = DeleteTask.Fingerprint a (fake.BadMarshalStableEncoder Message) v).
Proof.
  split; [|split].
  - intros act run. subst run. unfold SpawnTask.Fingerprint. rewrite write_then_marshal.
    simpl. destruct (encoding.Write _ v) as [[[]|x] w1]; simpl; split; try done.
    by intros ? [= <-].
  - intros act run. subst run. unfold InvokeTask.Fingerprint. rewrite write_then_marshal.
    simpl. destruct (encoding.Write _ v) as [[[]|x] w1]; simpl; split; try done.
    by intros ? [= <-].
  - done.
Qed.

End MoreServerTask.

(** * The package [fake] *)

Lemma int_wrap_small (z : Z) : (- 2 ^ 63 ≤ z < 2 ^ 63)%Z → int_wrap z = z.
Proof. intros Hz. unfold int_wrap. rewrite Z.mod_small; lia. Qed.

Lemma at_index_lookup {A} (l : list A) (i : nat) (a : A) :
  l !! i = Some a → at_index l (Z.of_nat i) = Returns a.
Proof.
  intros Hi. unfold at_index. apply lookup_lt_Some in Hi as Hlt.
  rewrite Nat2Z.id, Hi.
  destruct (Z.ltb_spec (Z.of_nat i) 0); [lia|].
  destruct (Z.leb_spec (Z.of_nat (length l)) (Z.of_nat i)); [lia|done].
Qed.

Lemma at_index_Returns {A} (l : list A) (i : Z) (a : A) :
  at_index l i = Returns a ↔ (0 ≤ i)%Z ∧ l !! Z.to_nat i = Some a.
Proof.
  unfold at_index.
  destruct (Z.ltb_spec i 0); simpl; [split; [done|lia]|].
  destruct (Z.leb_spec (Z.of_nat (length l)) i); simpl.
  - split; [done|]. intros [_ Hi]. apply lookup_lt_Some in Hi. lia.
  - destruct (l !! Z.to_nat i) eqn:Hi.
    + split; [by intros [= ->]|by intros [_ [= ->]]].
    + apply lookup_ge_None in Hi. lia.
Qed.

Lemma at_index_Panics {A} (l : list A) (i : Z) :
  (i < 0 ∨ Z.of_nat (length l) ≤ i)%Z ↔ ∃ what, at_index l i = Panics what.
Proof.
  unfold at_index.
  destruct (Z.ltb_spec i 0); simpl; [split; eauto|].
  destruct (Z.leb_spec (Z.of_nat (length l)) i); simpl; [split; eauto|].
  destruct (l !! Z.to_nat i) eqn:Hi.
  - split; [lia|by intros [? ?]].
  - apply lookup_ge_None in Hi. lia.
Qed.

(** X6. A [Call] that is not nil keeps every call: after [Add] there is
    one call more, the new one is found at the position the length was,
    with its arguments at their positions, and the earlier calls are
    where they were; [Get] panics for a call that was not made.  A nil
    [Call] stays nil, has length 0 and answers nil. *)
Theorem Call_keeps_calls {A} (calls : fake.Call A) (args : list A) :
  let c := fake.Call_Add (Some calls) args in
  fake.Call_Len c = (fake.Call_Len (Some calls) + 1)%Z
  ∧ (∀ (i : nat) a, args !! i = Some a →
       fake.Call_Get c (fake.Call_Len (Some calls)) (Z.of_nat i) = Returns (Some a))
  ∧ (∀ n i, (0 ≤ n < fake.Call_Len (Some calls))%Z →
       fake.Call_Get c n i = fake.Call_Get (Some calls) n i)
  ∧ (∀ n i, (n < 0 ∨ fake.Call_Len c ≤ n)%Z → ∃ what, fake.Call_Get c n i = Panics what)
  ∧ fake.Call_Add None args = None
  ∧ fake.Call_Len (@None (fake.Call A)) = 0%Z
  ∧ (∀ n i, fake.Call_Get (@None (fake.Call A)) n i = Returns None).
Proof.
  intros c. subst c. unfold fake.Call_Len, fake.Call_Get, fake.Call_Add.
  rewrite length_app. simpl.
  split; [lia|]. split; [|split; [|split]].
  - intros i a Hi.
    rewrite (at_index_lookup (calls ++ [args]) (length calls) args).
    + by rewrite (at_index_lookup args i a).
    + by rewrite lookup_app_r, Nat.sub_diag.
  - intros n i Hn.
    destruct (at_index calls n) as [old|what] eqn:Hold.
    + apply at_index_Returns in Hold as [H0 Hold].
      rewrite (proj2 (at_index_Returns (calls ++ [args]) n old)); [done|].
      split; [done|]. rewrite lookup_app_l; [done|]. by eapply lookup_lt_Some.
    + assert (∃ what, at_index calls n = Panics what) as Hp by eauto.
      apply at_index_Panics in Hp. lia.
  - intros n i Hn.
    destruct (proj1 (at_index_Panics (calls ++ [args]) n)) as [what ->]; [|eauto].
    rewrite length_app. simpl. lia.
  - done.
Qed.

Lemma each_cons {S A} (c : M S A) (cs : list (M S A)) (s : S) :
  each (c :: cs) s = ((c s).1 :: (each cs (c s).2).1, (each cs (c s).2).2).
Proof. simpl. destruct (c s) as [r s1]. simpl. by destruct (each cs s1). Qed.

Lemma Hash_Write_step (a : bytes) (h : fake.Hash) :
  (fake.Hash_Write a h).1
  = (if (0 <? fake.delay h)%Z then Ok tt
     else match fake.err h with None => Ok tt | Some x => Err x end)
  ∧ fake.delay (fake.Hash_Write a h).2
    = (if (0 <? fake.delay h)%Z then fake.delay h - 1 else fake.delay h)%Z
  ∧ fake.err (fake.Hash_Write a h).2 = fake.err h
  ∧ fake.calls (fake.Hash_Write a h).2 = fake.Call_Add (fake.calls h) [a].
Proof. unfold fake.Hash_Write. by destruct (0 <? fake.delay h)%Z. Qed.

(** X7. A [Hash] answers its first [delay] writes with no error and every
    later one with its error, for good: the delay never grows again.  A
    [Hash] without an error accepts every write.  Its [Call], when it has
    one, holds the input of every write, refused or not, in order. *)
Theorem Hash_fails_after_delay (ins : list bytes) (h : fake.Hash) :
  let run := each (fake.Hash_Write <$> ins) h in
  run.1 = imap (λ k _, if (Z.of_nat k <? fake.delay h)%Z then Ok tt
                       else match fake.err h with None => Ok tt | Some x => Err x end) ins
  ∧ fake.delay run.2 = (if (fake.delay h <? 0)%Z then fake.delay h
                        else Z.max 0 (fake.delay h - Z.of_nat (length ins)))
  ∧ fake.err run.2 = fake.err h
  ∧ fake.calls run.2 = (λ calls, calls ++ ((λ i, [i]) <$> ins)) <$> fake.calls h.
Proof.
  revert h. induction ins as [|a ins IH]; intros h.
  - simpl. repeat split.
    + destruct (Z.ltb_spec (fake.delay h) 0); lia.
    + destruct (fake.calls h); simpl; [by rewrite app_nil_r|done].
  - cbv zeta. rewrite fmap_cons, each_cons. simpl.
    destruct (Hash_Write_step a h) as (Hr & Hd & He & Hc).
    destruct (IH (fake.Hash_Write a h).2) as (IHr & IHd & IHe & IHc).
    rewrite IHr, IHd, IHe, IHc, Hr, Hd, He, Hc. clear.
    repeat split.
    + f_equal. apply imap_ext. intros k b _. simpl.
      destruct (Z.ltb_spec 0 (fake.delay h)); cbv iota;
        repeat match goal with
               | |- context [(?x <? ?y)%Z] => destruct (Z.ltb_spec x y)
               end; try done; lia.
    + destruct (Z.ltb_spec 0 (fake.delay h)); cbv iota;
        repeat match goal with
               | |- context [(?x <? ?y)%Z] => destruct (Z.ltb_spec x y)
               end; lia.
    + destruct (fake.calls h); simpl; [|done]. by rewrite <- (assoc_L (++)).
Qed.

(** X8. On a [Hash] as writer, the first write of a fingerprint always
    reaches the hash, which records it.  A hash with an error and a delay
    of 0 or less refuses it, and the task fails there whatever the
    encoder.  Otherwise the hash accepts it, with one write less to go
    before it fails: a delete succeeds, and a spawn and an invoke are from
    there on what the serializer makes of the argument on the hash so
    left. *)
Theorem Fingerprint_on_Hash {Message} (e : encoding.ProtoMarshaler Message) (h : fake.Hash) :
  let refusal := match fake.err h with
                 | Some x => if (fake.delay h <=? 0)%Z then Some x else None
                 | None => None
                 end in
  let seen (first : bytes) :=
    fake.mkHash (if (0 <? fake.delay h)%Z then fake.delay h - 1 else fake.delay h)%Z
      (fake.err h) (fake.Call_Add (fake.calls h) [first]) in
  let rest (arg : Message) (h1 : fake.Hash) :=
    (match (encoding.MarshalStable e arg h1).1 with
     | Ok _ => Ok tt
     | Err x => Err (Errorf "couldn't write argument: " x)
     end, (encoding.MarshalStable e arg h1).2) in
  (∀ act : SpawnTask.t Message,
     let contract := String.list_byte_of_string (SpawnTask.ContractID act) in
     SpawnTask.Fingerprint act e h
     = match refusal with
       | Some x => (Err (Errorf "couldn't write contract: " x), seen contract)
       | None => rest (SpawnTask.Argument act) (seen contract)
       end)
  ∧ (∀ act : InvokeTask.t Message,
       InvokeTask.Fingerprint act e h
       = match refusal with
         | Some x => (Err (Errorf "couldn't write key: " x), seen (InvokeTask.Key act))
         | None => rest (InvokeTask.Argument act) (seen (InvokeTask.Key act))
         end)
  ∧ (∀ a : DeleteTask.t,
       DeleteTask.Fingerprint a e h
       = match refusal with
         | Some x => (Err (Errorf "couldn't write key: " x), seen (DeleteTask.Key a))
         | None => (Ok tt, seen (DeleteTask.Key a))
         end).
Proof.
  intros refusal seen rest.
  assert (Hfirst : ∀ first,
    encoding.Write first h
    = (match refusal with Some x => Err x | None => Ok tt end, seen first)).
  { intros first. subst refusal seen. unfold encoding.Write, fake.Hash_Writer, fake.Hash_Write.
    destruct (Z.ltb_spec 0 (fake.delay h)), (Z.leb_spec (fake.delay h) 0);
      try lia; by destruct (fake.err h). }
  split; [|split].
  - intros act contract. unfold SpawnTask.Fingerprint, bind, or_return, ret.
    fold contract. rewrite Hfirst. subst rest. simpl.
    destruct refusal; [done|].
    by destruct (encoding.MarshalStable e (SpawnTask.Argument act) (seen contract))
      as [[[]|x] h2].
  - intros act. unfold InvokeTask.Fingerprint, bind, or_return, ret.
    rewrite Hfirst. subst rest. simpl.
    destruct refusal; [done|].
    by destruct (encoding.MarshalStable e (InvokeTask.Argument act) (seen (InvokeTask.Key act)))
      as [[[]|x] h2].
  - intros a. unfold DeleteTask.Fingerprint, bind, or_return, ret.
    rewrite Hfirst. by destruct refusal.
Qed.

Lemma PackAny_step (c : option fake.Counter.t) :
  fake.BadPackAnyEncoder_PackAny c
  = (if fake.Counter_Done c then Err "fake error" else Ok tt, fake.Counter_Decrease c).
Proof. unfold fake.BadPackAnyEncoder_PackAny. by destruct (fake.Counter_Done c). Qed.

(** X9. A [BadPackAnyEncoder] over a counter of value [v] packs with no
    error as many times as [v] counts, none for a [v] of 0 or less, and
    fails with "fake error" from then on, while the counter goes on down;
    over a nil counter it fails every time. *)
Theorem PackAny_counts_down (m : nat) (v : Z) :
  (- 2 ^ 63 + Z.of_nat m ≤ v < 2 ^ 63)%Z →
  each (replicate m fake.BadPackAnyEncoder_PackAny) (fake.NewCounter v)
  = (replicate (Z.to_nat v `min` m) (Ok tt) ++ replicate (m - Z.to_nat v) (Err "fake error"),
     Some (fake.Counter.mk (v - Z.of_nat m)))
  ∧ each (replicate m fake.BadPackAnyEncoder_PackAny) None
    = (replicate m (Err "fake error"), None).
Proof.
  intros Hv. split.
  - revert v Hv. induction m as [|m IH]; intros v Hv.
    + simpl. rewrite Nat.min_0_r. simpl. unfold fake.NewCounter.
      change (Z.of_nat 0) with 0%Z. by rewrite Z.sub_0_r.
    + rewrite replicate_S, each_cons, PackAny_step. simpl.
      rewrite int_wrap_small by lia.
      change (Some (fake.Counter.mk (v - 1))) with (fake.NewCounter (v - 1)).
      rewrite IH by lia. simpl. f_equal; [|do 2 f_equal; lia].
      destruct (Z.leb_spec v 0) as [Hle|Hgt].
      * replace (Z.to_nat v) with 0%nat by lia.
        replace (Z.to_nat (v - 1)) with 0%nat by lia.
        simpl. by rewrite Nat.sub_0_r.
      * replace (Z.to_nat v) with (S (Z.to_nat (v - 1))) by lia. simpl. done.
  - clear Hv. induction m as [|m IH]; [done|].
    rewrite replicate_S, each_cons, PackAny_step. simpl. by rewrite IH.
Qed.

(** ** Addresses *)

Lemma Z_of_byte_of_Z (z : Z) : Z_of_byte (byte_of_Z z) = (z mod 2 ^ 8)%Z.
Proof.
  unfold Z_of_byte, byte_of_Z. change 256%Z with (2 ^ 8)%Z.
  pose proof (Z.mod_pos_bound z (2 ^ 8) eq_refl) as Hz.
  destruct (Byte.of_N (Z.to_N (z mod 2 ^ 8))) as [b|] eqn:Hb.
  - apply Byte.to_of_N in Hb. simpl. rewrite Hb. lia.
  - apply Byte.of_N_None_iff in Hb. lia.
Qed.

Lemma Z_of_byte_range (b : byte) : (0 ≤ Z_of_byte b < 2 ^ 8)%Z.
Proof. unfold Z_of_byte. pose proof (Byte.to_N_bounded b). lia. Qed.

Lemma testbit_small (z n : Z) (k : Z) :
  (0 ≤ z < 2 ^ k)%Z → (0 ≤ k ≤ n)%Z → Z.testbit z n = false.
Proof.
  intros Hz Hn. rewrite <- (Z.mod_small z (2 ^ k)) by done.
  by apply Z.mod_pow2_bits_high.
Qed.

(** The bits of the number [Uint32] reads off four bytes. *)
Lemma Uint32_testbit (B0 B1 B2 B3 n : Z) :
  (0 ≤ B0 < 2 ^ 8)%Z → (0 ≤ B1 < 2 ^ 8)%Z → (0 ≤ B2 < 2 ^ 8)%Z → (0 ≤ B3 < 2 ^ 8)%Z →
  (0 ≤ n)%Z →
  Z.testbit (Z.lor (Z.lor (Z.lor B0 (B1 ≪ 8)) (B2 ≪ 16)) (B3 ≪ 24)) n
  = if (n <? 8)%Z then Z.testbit B0 n
    else if (n <? 16)%Z then Z.testbit B1 (n - 8)
         else if (n <? 24)%Z then Z.testbit B2 (n - 16)
              else if (n <? 32)%Z then Z.testbit B3 (n - 24) else false.
Proof.
  intros H0 H1 H2 H3 Hn.
  rewrite !Z.lor_spec, !Z.shiftl_spec by done.
  destruct (Z.ltb_spec n 8).
  { rewrite !(Z.testbit_neg_r _ (n - _)) by lia. by rewrite !orb_false_r. }
  rewrite (testbit_small B0 n 8) by lia.
  destruct (Z.ltb_spec n 16).
  { rewrite !(Z.testbit_neg_r _ (n - 16)), !(Z.testbit_neg_r _ (n - 24)) by lia.
    by rewrite !orb_false_r. }
  rewrite (testbit_small B1 (n - 8) 8) by lia.
  destruct (Z.ltb_spec n 24).
  { rewrite !(Z.testbit_neg_r _ (n - 24)) by lia. by rewrite !orb_false_r. }
  rewrite (testbit_small B2 (n - 16) 8) by lia.
  destruct (Z.ltb_spec n 32); [done|].
  by rewrite (testbit_small B3 (n - 24) 8) by lia.
Qed.

Lemma Uint32_range (b0 b1 b2 b3 : byte) (rest : bytes) (v : Z) :
  Uint32 (b0 :: b1 :: b2 :: b3 :: rest) = Returns v → (0 ≤ v < 2 ^ 32)%Z.
Proof.
  intros [= <-].
  pose proof (Z_of_byte_range b0). pose proof (Z_of_byte_range b1).
  pose proof (Z_of_byte_range b2). pose proof (Z_of_byte_range b3).
  set (v := Z.lor _ _).
  assert (Hv : (v mod 2 ^ 32 = v)%Z).
  { apply Z.bits_inj'. intros n Hn. subst v.
    destruct (Z.ltb_spec n 32).
    - by rewrite Z.mod_pow2_bits_low.
    - rewrite Z.mod_pow2_bits_high by lia.
      rewrite Uint32_testbit by done.
      repeat match goal with
             | |- context [(?x <? ?y)%Z] => destruct (Z.ltb_spec x y)
             end; (done || lia). }
  rewrite <- Hv. by apply Z.mod_pos_bound.
Qed.

(** What [PutUint32] puts is what [Uint32] reads, up to 32 bits. *)
Lemma Uint32_PutUint32 (buffer : bytes) (v : Z) :
  (4 ≤ length buffer)%nat →
  ∃ out, PutUint32 buffer v = Returns out
         ∧ length out = length buffer
         ∧ Uint32 out = Returns (v mod 2 ^ 32)%Z.
Proof.
  intros Hlen. unfold PutUint32.
  destruct (Nat.ltb_spec (length buffer) 4); [lia|].
  eexists. split; [done|]. split.
  { rewrite length_app, length_drop. simpl. lia. }
  simpl. f_equal. rewrite !Z_of_byte_of_Z.
  apply Z.bits_inj'. intros n Hn.
  rewrite Uint32_testbit by (done || by apply Z.mod_pos_bound).
  destruct (Z.ltb_spec n 8).
  { rewrite !Z.mod_pow2_bits_low by lia. done. }
  destruct (Z.ltb_spec n 16).
  { rewrite !Z.mod_pow2_bits_low, Z.shiftr_spec by lia. f_equal. lia. }
  destruct (Z.ltb_spec n 24).
  { rewrite !Z.mod_pow2_bits_low, Z.shiftr_spec by lia. f_equal. lia. }
  destruct (Z.ltb_spec n 32).
  { rewrite !Z.mod_pow2_bits_low, Z.shiftr_spec by lia. f_equal. lia. }
  by rewrite Z.mod_pow2_bits_high by lia.
Qed.

(** X10. The text of an address is four bytes, handed out whatever the
    error of the address, and the factory reads back from it the index of
    the address modulo 2^32, with no error: an address equal to the one
    marshaled exactly when the index lies between 0 and 2^32 - 1. *)
Theorem Address_text_round_trip {F} (a : fake.Address.t) :
  ∃ buffer,
    fake.Address_MarshalText a = Returns (buffer, fake.Address.err a)
    ∧ length buffer = 4%nat
    ∧ fake.AddressFactory_FromText buffer
      = Returns (fake.Address.mk (fake.Address.index a mod 2 ^ 32) None)
    ∧ (fake.Address_Equal (fake.Address.mk (fake.Address.index a mod 2 ^ 32) None)
         (fake.Fake a : fake.mino_Address F) = true
       ↔ (0 ≤ fake.Address.index a < 2 ^ 32)%Z).
Proof.
  unfold fake.Address_MarshalText.
  destruct (Uint32_PutUint32 (replicate 4 Byte.x00) (uint32 (fake.Address.index a)))
    as (out & -> & Hlen & Hread); [simpl; lia|].
  exists out. rewrite length_replicate in Hlen.
  split; [done|]. split; [done|]. split.
  - unfold fake.AddressFactory_FromText. rewrite Hlen, Hread. simpl.
    unfold uint32. by rewrite Z.mod_mod.
  - simpl. destruct (Z.eqb_spec (fake.Address.index a) (fake.Address.index a mod 2 ^ 32)).
    + split; [|done]. intros _. rewrite e. by apply Z.mod_pos_bound.
    + split; [done|]. intros Hr. by rewrite Z.mod_small in n.
Qed.

(** X11. The factory never panics and never answers an address with an
    error.  It reads the first four bytes only; a text of fewer than four
    bytes gives the address of index 0; the index it gives is always
    between 0 and 2^32 - 1. *)
Theorem FromText_reads_four_bytes (text : bytes) :
  (∃ a, fake.AddressFactory_FromText text = Returns a
        ∧ fake.Address.err a = None
        ∧ (0 ≤ fake.Address.index a < 2 ^ 32)%Z)
  ∧ ((length text < 4)%nat →
     fake.AddressFactory_FromText text = Returns (fake.Address.mk 0 None))
  ∧ (∀ extra, (4 ≤ length text)%nat →
       fake.AddressFactory_FromText (text ++ extra) = fake.AddressFactory_FromText text).
Proof.
  unfold fake.AddressFactory_FromText.
  destruct text as [|b0 [|b1 [|b2 [|b3 rest]]]]; simpl.
  1-4: split; [eexists; split; [done|split; [done|simpl; lia]]
              |split; [done|intros extra Hlen; lia]].
  split; [|split; [intros Hlen; lia|done]].
  eexists. split; [done|]. split; [done|].
  by apply (Uint32_range b0 b1 b2 b3 rest).
Qed.

Lemma list_ascii_of_string_app (s t : string) :
  String.list_ascii_of_string (s +:+ t)
  = String.list_ascii_of_string s ++ String.list_ascii_of_string t.
Proof. induction s as [|c s IH]; simpl; [done|]. by rewrite IH. Qed.

Lemma string_app_inj_r (s t u : string) : s +:+ u = t +:+ u → s = t.
Proof.
  intros Hst. apply (f_equal String.list_ascii_of_string) in Hst.
  rewrite !list_ascii_of_string_app in Hst. apply app_inv_tail in Hst.
  by rewrite <- (String.string_of_list_ascii_of_string s),
    <- (String.string_of_list_ascii_of_string t), Hst.
Qed.

(** X12. Two addresses of this package are equal exactly when they have
    the same index, which is exactly when they print the same: the error
    of an address plays no part, so the bad address equals the address of
    index 0.  An address of this package equals no address of another
    implementation. *)
Theorem Address_Equal_by_index {F} (a b : fake.Address.t) :
  (fake.Address_Equal a (fake.Fake b : fake.mino_Address F) = true
   ↔ fake.Address.index a = fake.Address.index b)
  ∧ (fake.Address_Equal a (fake.Fake b : fake.mino_Address F) = true
     ↔ fake.Address_String a = fake.Address_String b)
  ∧ fake.Address_Equal a (fake.Fake b : fake.mino_Address F)
    = fake.Address_Equal b (fake.Fake a : fake.mino_Address F)
  ∧ fake.Address_Equal fake.NewBadAddress (fake.Fake (fake.NewAddress 0) : fake.mino_Address F)
    = true
  ∧ (∀ f : F, fake.Address_Equal a (fake.Foreign f) = false).
Proof.
  assert (Heq : fake.Address_Equal a (fake.Fake b : fake.mino_Address F) = true
                ↔ fake.Address.index a = fake.Address.index b).
  { simpl. destruct (Z.eqb_spec (fake.Address.index b) (fake.Address.index a));
      split; try done; by intros ->. }
  split; [exact Heq|]. split; [|split; [|done]].
  - rewrite Heq. unfold fake.Address_String. split; [by intros ->|].
    intros Hs. apply (inj (String.app _)) in Hs. apply string_app_inj_r in Hs.
    by apply (inj pretty) in Hs.
  - simpl. apply Z.eqb_sym.
Qed.

(** ** Iterators *)

Section Iterators.
Context {F : Type}.
Implicit Types (addrs : list (fake.mino_Address F)) (i : fake.AddressIterator.t F).

Lemma AddressIterator_exhausted (m : nat) addrs (k : Z) :
  (Z.of_nat (length addrs) ≤ k)%Z →
  fake.AddressIterator_next m (fake.AddressIterator.mk addrs k)
  = Returns (replicate m None, fake.AddressIterator.mk addrs k).
Proof.
  intros Hk. induction m as [|m IH]; [done|]. simpl.
  unfold fake.AddressIterator_GetNext, fake.AddressIterator_HasNext. simpl.
  destruct (Z.ltb_spec k (Z.of_nat (length addrs))); [lia|]. by rewrite IH.
Qed.

Lemma AddressIterator_next_from (n m k : nat) addrs :
  (Z.of_nat (length addrs) < 2 ^ 63)%Z → (k + n)%nat = length addrs →
  fake.AddressIterator_next (n + m) (fake.AddressIterator.mk addrs (Z.of_nat k))
  = Returns ((Some <$> drop k addrs) ++ replicate m None,
             fake.AddressIterator.mk addrs (Z.of_nat (length addrs))).
Proof.
  intros Hlen. revert k. induction n as [|n IH]; intros k Hk.
  - simpl. rewrite AddressIterator_exhausted by lia.
    rewrite drop_ge by lia. simpl. do 3 f_equal. lia.
  - simpl. unfold fake.AddressIterator_GetNext, fake.AddressIterator_HasNext. simpl.
    destruct (Z.ltb_spec (Z.of_nat k) (Z.of_nat (length addrs))); [|lia].
    destruct (lookup_lt_is_Some_2 addrs k) as [a Ha]; [lia|].
    rewrite (at_index_lookup addrs k a Ha).
    rewrite int_wrap_small by lia.
    replace (Z.of_nat k + 1)%Z with (Z.of_nat (S k)) by lia.
    rewrite IH by lia. by rewrite (drop_S addrs a k Ha).
Qed.

(** X13. A new iterator hands out the addresses it was made of, each
    once and in their order, and nil from then on, without moving any
    further; [HasNext] is then false. *)
Theorem AddressIterator_enumerates addrs (m : nat) :
  (Z.of_nat (length addrs) < 2 ^ 63)%Z →
  fake.AddressIterator_next (length addrs + m) (fake.NewAddressIterator addrs)
  = Returns ((Some <$> addrs) ++ replicate m None,
             fake.AddressIterator.mk addrs (Z.of_nat (length addrs)))
  ∧ fake.AddressIterator_HasNext
      (fake.AddressIterator.mk addrs (Z.of_nat (length addrs))) = false.
Proof.
  intros Hlen. split.
  - apply (AddressIterator_next_from (length addrs) m 0 addrs Hlen). lia.
  - unfold fake.AddressIterator_HasNext. simpl. apply Z.ltb_irrefl.
Qed.

(** X14. After [Seek]: at a position that holds an address, [GetNext]
    answers that address and moves one on; at a position past the last,
    [HasNext] is false and [GetNext] answers nil and stays; at a position
    below 0, [HasNext] is true and [GetNext] panics. *)
Theorem AddressIterator_Seek_positions i (k : Z) :
  (∀ a, (0 ≤ k < 2 ^ 63 - 1)%Z → fake.AddressIterator.addrs i !! Z.to_nat k = Some a →
     fake.AddressIterator_HasNext (fake.AddressIterator_Seek i k) = true
     ∧ fake.AddressIterator_GetNext (fake.AddressIterator_Seek i k)
       = Returns (Some a, fake.AddressIterator_Seek i (k + 1)))
  ∧ ((Z.of_nat (length (fake.AddressIterator.addrs i)) ≤ k)%Z →
     fake.AddressIterator_HasNext (fake.AddressIterator_Seek i k) = false
     ∧ fake.AddressIterator_GetNext (fake.AddressIterator_Seek i k)
       = Returns (None, fake.AddressIterator_Seek i k))
  ∧ ((k < 0)%Z →
     fake.AddressIterator_HasNext (fake.AddressIterator_Seek i k) = true
     ∧ ∃ what, fake.AddressIterator_GetNext (fake.AddressIterator_Seek i k) = Panics what).
Proof.
  unfold fake.AddressIterator_GetNext, fake.AddressIterator_HasNext,
    fake.AddressIterator_Seek. simpl.
  split; [|split].
  - intros a Hk Ha. apply lookup_lt_Some in Ha as Hlt.
    destruct (Z.ltb_spec k (Z.of_nat (length (fake.AddressIterator.addrs i)))); [|lia].
    split; [done|].
    rewrite (proj2 (at_index_Returns _ k a)) by (split; [lia|done]).
    by rewrite int_wrap_small by lia.
  - intros Hk.
    by destruct (Z.ltb_spec k (Z.of_nat (length (fake.AddressIterator.addrs i)))); [lia|].
  - intros Hk.
    destruct (Z.ltb_spec k (Z.of_nat (length (fake.AddressIterator.addrs i)))); [|lia].
    split; [done|].
    destruct (proj1 (at_index_Panics (fake.AddressIterator.addrs i) k)) as [what ->]; eauto.
Qed.

End Iterators.

Section PublicKeys.
Context {S PK : Type} `{!fake.HasPublicKey S PK}.
Implicit Types (signers : list (fake.AggregateSigner S PK)).

Lemma PublicKeyIterator_exhausted (m : nat) signers (k : Z) :
  (Z.of_nat (length signers) ≤ k)%Z →
  fake.PublicKeyIterator_next m (fake.PublicKeyIterator.mk signers k)
  = Returns (replicate m None, fake.PublicKeyIterator.mk signers k).
Proof.
  intros Hk. induction m as [|m IH]; [done|]. simpl.
  unfold fake.PublicKeyIterator_GetNext, fake.PublicKeyIterator_HasNext. simpl.
  destruct (Z.ltb_spec k (Z.of_nat (length signers))); [lia|]. by rewrite IH.
Qed.

(** X15. The iterator over the public keys hands out the public key of
    every signer, a wrapped public key as it was wrapped, in their order,
    and nil from then on; it panics when it comes to a nil signer. *)
Theorem PublicKeyIterator_enumerates signers (pubkeys : list PK) (m : nat) :
  (Z.of_nat (length signers) < 2 ^ 63)%Z →
  (Forall2 (λ signer pubkey, fake.Signer_GetPublicKey signer = Returns pubkey)
     signers pubkeys →
   fake.PublicKeyIterator_next (length signers + m) (fake.PublicKeyIterator.mk signers 0)
   = Returns ((Some <$> pubkeys) ++ replicate m None,
              fake.PublicKeyIterator.mk signers (Z.of_nat (length signers))))
  ∧ (∀ before, Forall2 (λ signer pubkey, fake.Signer_GetPublicKey signer = Returns pubkey)
                 before pubkeys →
       ∀ after, signers = before ++ fake.NilSigner :: after →
       ∃ what, fake.PublicKeyIterator_next (length signers + m)
                 (fake.PublicKeyIterator.mk signers 0) = Panics what).
Proof.
  intros Hlen.
  assert (Hfrom : ∀ (n k : nat) rest pks,
    (k + n)%nat = length signers → rest = drop k signers →
    Forall2 (λ signer pubkey, fake.Signer_GetPublicKey signer = Returns pubkey) rest pks →
    fake.PublicKeyIterator_next (n + m) (fake.PublicKeyIterator.mk signers (Z.of_nat k))
    = Returns ((Some <$> pks) ++ replicate m None,
               fake.PublicKeyIterator.mk signers (Z.of_nat (length signers)))).
  { induction n as [|n IH]; intros k rest pks Hk -> Hpks.
    - simpl. rewrite PublicKeyIterator_exhausted by lia.
      rewrite drop_ge in Hpks by lia. apply Forall2_nil_inv_l in Hpks as ->.
      simpl. do 3 f_equal. lia.
    - simpl. unfold fake.PublicKeyIterator_GetNext, fake.PublicKeyIterator_HasNext. simpl.
      destruct (Z.ltb_spec (Z.of_nat k) (Z.of_nat (length signers))); [|lia].
      destruct (lookup_lt_is_Some_2 signers k) as [s Hs]; [lia|].
      rewrite (at_index_lookup signers k s Hs).
      rewrite (drop_S signers s k Hs) in Hpks.
      apply Forall2_cons_inv_l in Hpks as (pk & pks' & Hpk & Hpks & ->).
      rewrite Hpk, int_wrap_small by lia.
      replace (Z.of_nat k + 1)%Z with (Z.of_nat (Datatypes.S k)) by lia.
      by rewrite (IH (Datatypes.S k) _ pks') by (done || lia). }
  assert (Hnil : ∀ (n k : nat) before pks after,
    (k + n)%nat = length signers → drop k signers = before ++ fake.NilSigner :: after →
    Forall2 (λ signer pubkey, fake.Signer_GetPublicKey signer = Returns pubkey) before pks →
    ∃ what, fake.PublicKeyIterator_next (n + m)
              (fake.PublicKeyIterator.mk signers (Z.of_nat k)) = Panics what).
  { induction n as [|n IH]; intros k before pks after Hk Hdrop Hpks.
    - rewrite drop_ge in Hdrop by lia. by destruct before.
    - simpl. unfold fake.PublicKeyIterator_GetNext, fake.PublicKeyIterator_HasNext. simpl.
      destruct (Z.ltb_spec (Z.of_nat k) (Z.of_nat (length signers))); [|lia].
      destruct (lookup_lt_is_Some_2 signers k) as [s Hs]; [lia|].
      rewrite (at_index_lookup signers k s Hs).
      rewrite (drop_S signers s k Hs) in Hdrop.
      destruct before as [|s' before]; simplify_eq/=; [eauto|].
      apply Forall2_cons_inv_l in Hpks as (pk & pks' & Hpk & Hpks & ->).
      rewrite Hpk, int_wrap_small by lia.
      replace (Z.of_nat k + 1)%Z with (Z.of_nat (Datatypes.S k)) by lia.
      destruct (IH (Datatypes.S k) before pks' after) as [what ->]; eauto. lia. }
  split.
  - intros Hpks. by apply (Hfrom (length signers) 0%nat signers pubkeys).
  - intros before Hpks after ->.
    by apply (Hnil (length (before ++ fake.NilSigner :: after)) 0%nat before pubkeys after).
Qed.

End PublicKeys.

(** ** The collective authority *)

Section Authority.
Context {F S PK : Type} `{!fake.ForeignEqual F} `{!fake.HasPublicKey S PK}.
Implicit Types (ca : fake.CollectiveAuthority.t F S PK) (addr : fake.mino_Address F).
Implicit Types (signers : list (fake.AggregateSigner S PK)).
Implicit Types (addrs : list (fake.mino_Address F)).

Lemma generate_length {G} (g : G → S * G) (n : nat) (γ : G) :
  length (fake.generate g n γ).1 = n.
Proof.
  revert γ. induction n as [|n IH]; intros γ; simpl; [done|].
  destruct (g γ) as [s γ1]. specialize (IH γ1).
  destruct (fake.generate g n γ1). simpl in *. by rewrite IH.
Qed.

Lemma GetPublicKey_from_none signers addrs (i : Z) addr :
  Forall (λ b, fake.mino_Equal b addr = false) addrs →
  fake.GetPublicKey_from signers addrs i addr = Returns (None, (-1)%Z).
Proof.
  intros Hall. revert i. induction Hall as [|b addrs Hb _ IH]; intros i; simpl; [done|].
  by rewrite Hb.
Qed.

Lemma GetPublicKey_from_match signers before a after (i : Z) addr :
  Forall (λ b, fake.mino_Equal b addr = false) before →
  fake.mino_Equal a addr = true →
  fake.GetPublicKey_from signers (before ++ a :: after) i addr
  = match at_index signers (i + Z.of_nat (length before)) with
    | Panics what => Panics what
    | Returns signer =>
      match fake.Signer_GetPublicKey signer with
      | Panics what => Panics what
      | Returns pubkey => Returns (Some pubkey, (i + Z.of_nat (length before))%Z)
      end
    end.
Proof.
  intros Hall Ha. revert i. induction Hall as [|b before Hb _ IH]; intros i; simpl.
  - rewrite Ha. by rewrite Z.add_0_r.
  - rewrite Hb, IH. by replace (i + 1 + Z.of_nat (length before))%Z
      with (i + Z.pos (Pos.of_succ_nat (length before)))%Z by lia.
Qed.

(** X16. [GetPublicKey] answers the position of the first address equal to
    the one asked for, with the public key of the signer at that
    position; it panics when that signer is nil; and it answers nil and
    -1 when no address is equal. *)
Theorem GetPublicKey_first_match ca addr :
  (∀ before a after signer,
     fake.CollectiveAuthority.addrs ca = before ++ a :: after →
     Forall (λ b, fake.mino_Equal b addr = false) before →
     fake.mino_Equal a addr = true →
     fake.CollectiveAuthority.signers ca !! length before = Some signer →
     fake.CollectiveAuthority_GetPublicKey ca addr
     = match fake.Signer_GetPublicKey signer with
       | Panics what => Panics what
       | Returns pubkey => Returns (Some pubkey, Z.of_nat (length before))
       end)
  ∧ (Forall (λ b, fake.mino_Equal b addr = false) (fake.CollectiveAuthority.addrs ca) →
     fake.CollectiveAuthority_GetPublicKey ca addr = Returns (None, (-1)%Z)).
Proof.
  unfold fake.CollectiveAuthority_GetPublicKey. split.
  - intros before a after signer -> Hall Ha Hsigner.
    rewrite GetPublicKey_from_match by done. rewrite Z.add_0_l.
    by rewrite (at_index_lookup _ _ _ Hsigner).
  - apply GetPublicKey_from_none.
Qed.

Lemma GetPublicKey_from_range signers (base : Z) (k n : nat) (j : Z) e :
  (- 2 ^ 63 ≤ base)%Z → (base + Z.of_nat (k + n) ≤ 2 ^ 63)%Z →
  fake.GetPublicKey_from signers
    ((λ i : nat, fake.Fake (fake.Address.mk (int_wrap (Z.of_nat i + base)) None))
       <$> seq k n)
    (Z.of_nat k) (fake.Fake (fake.Address.mk j e))
  = if ((base + Z.of_nat k <=? j) && (j <? base + Z.of_nat (k + n)))%Z
    then match at_index signers (j - base) with
         | Panics what => Panics what
         | Returns signer =>
           match fake.Signer_GetPublicKey signer with
           | Panics what => Panics what
           | Returns pubkey => Returns (Some pubkey, (j - base)%Z)
           end
         end
    else Returns (None, (-1)%Z).
Proof.
  intros Hbase. revert k. induction n as [|n IH]; intros k Hn; simpl.
  - destruct (Z.leb_spec (base + Z.of_nat k) j), (Z.ltb_spec j (base + Z.of_nat (k + 0)));
      simpl; try done; lia.
  - rewrite int_wrap_small by lia.
    destruct (Z.eqb_spec j (Z.of_nat k + base)) as [->|Hne].
    + replace (Z.of_nat k + base - base)%Z with (Z.of_nat k) by lia.
      destruct (Z.leb_spec (base + Z.of_nat k) (Z.of_nat k + base)),
               (Z.ltb_spec (Z.of_nat k + base) (base + Z.of_nat (k + Datatypes.S n)));
        simpl; try done; lia.
    + replace (Z.of_nat k + 1)%Z with (Z.of_nat (Datatypes.S k)) by lia.
      rewrite IH by lia.
      destruct (Z.leb_spec (base + Z.of_nat (Datatypes.S k)) j),
               (Z.ltb_spec j (base + Z.of_nat (Datatypes.S k + n))),
               (Z.leb_spec (base + Z.of_nat k) j),
               (Z.ltb_spec j (base + Z.of_nat (k + Datatypes.S n)));
        simpl; try done; lia.
Qed.

(** X17. [NewAuthorityWithBase] panics for a negative size.  Otherwise, as
    long as the indices do not overflow, it calls the generator once for
    every member and makes an authority of that size with a signer for
    every address; the address at position [i] has index [base + i], and
    asking for the public key of an address of that index, whatever its
    error, answers position [i] and the public key of the signer generated
    at turn [i]; an address of an index outside gets nil and -1. *)
Theorem NewAuthorityWithBase_members {G} (base n : Z) (g : G → S * G) (γ : G) :
  ((n < 0)%Z → ∃ what, fake.NewAuthorityWithBase (F:=F) (PK:=PK) base n g γ = Panics what)
  ∧ ((0 ≤ n)%Z → (- 2 ^ 63 ≤ base)%Z → (base + n ≤ 2 ^ 63)%Z →
     ∃ ca,
       fake.NewAuthorityWithBase base n g γ
       = Returns (ca, (fake.generate g (Z.to_nat n) γ).2)
       ∧ fake.aligned ca
       ∧ fake.CollectiveAuthority_Len ca = n
       ∧ fake.CollectiveAuthority.signers ca
         = fake.Generated <$> (fake.generate g (Z.to_nat n) γ).1
       ∧ (∀ (i : nat) s e,
            (fake.generate g (Z.to_nat n) γ).1 !! i = Some s →
            fake.CollectiveAuthority_GetAddress ca (Z.of_nat i)
            = Returns (fake.Fake (fake.Address.mk (base + Z.of_nat i) None))
            ∧ fake.CollectiveAuthority_GetPublicKey ca
                (fake.Fake (fake.Address.mk (base + Z.of_nat i) e))
              = Returns (Some (fake.generated_GetPublicKey s), Z.of_nat i))
       ∧ (∀ j e, (j < base ∨ base + n ≤ j)%Z →
            fake.CollectiveAuthority_GetPublicKey ca (fake.Fake (fake.Address.mk j e))
            = Returns (None, (-1)%Z))).
Proof.
  unfold fake.NewAuthorityWithBase. split.
  - intros Hn. destruct (Z.ltb_spec n 0); [eauto|lia].
  - intros Hn Hbase Hover. destruct (Z.ltb_spec n 0); [lia|].
    pose proof (generate_length g (Z.to_nat n) γ) as Hlen.
    destruct (fake.generate g (Z.to_nat n) γ) as [ss γ1]. simpl in *.
    eexists. split; [done|].
    unfold fake.aligned, fake.CollectiveAuthority_Len, fake.CollectiveAuthority_GetAddress,
      fake.CollectiveAuthority_GetPublicKey. simpl.
    rewrite !length_fmap, length_seq, Hlen.
    split; [done|]. split; [lia|]. split; [done|]. split.
    + intros i s e Hs. apply lookup_lt_Some in Hs as Hlt. split.
      * apply at_index_lookup. rewrite list_lookup_fmap, lookup_seq_lt by lia. simpl.
        rewrite int_wrap_small by lia. do 3 f_equal. lia.
      * rewrite (GetPublicKey_from_range _ base 0 (Z.to_nat n)) by lia.
        destruct (Z.leb_spec (base + Z.of_nat 0) (base + Z.of_nat i)),
                 (Z.ltb_spec (base + Z.of_nat i) (base + Z.of_nat (0 + Z.to_nat n)));
          simpl; try lia.
        replace (base + Z.of_nat i - base)%Z with (Z.of_nat i) by lia.
        rewrite (at_index_lookup _ i (fake.Generated s)); [done|].
        by rewrite list_lookup_fmap, Hs.
    + intros j e Hj. rewrite (GetPublicKey_from_range _ base 0 (Z.to_nat n)) by lia.
      destruct (Z.leb_spec (base + Z.of_nat 0) j),
               (Z.ltb_spec j (base + Z.of_nat (0 + Z.to_nat n))); simpl; try done; lia.
Qed.

Lemma remove_at_Returns {A} (l l' : list A) (i : Z) :
  fake.remove_at l i = Returns l'
  ↔ (0 ≤ i < Z.of_nat (length l))%Z
    ∧ l' = take (Z.to_nat i) l ++ drop (Datatypes.S (Z.to_nat i)) l.
Proof.
  unfold fake.remove_at.
  destruct (Z.ltb_spec i 0); simpl.
  { split; [done|]. intros [Hi _]. lia. }
  destruct (Z.leb_spec (Z.of_nat (length l)) i); simpl.
  { split; [done|]. intros [Hi _]. lia. }
  split.
  - intros [= <-]. split; [lia|done].
  - by intros [_ ->].
Qed.

Lemma remove_at_Panics {A} (l : list A) (i : Z) :
  (i < 0 ∨ Z.of_nat (length l) ≤ i)%Z → ∃ what, fake.remove_at l i = Panics what.
Proof.
  intros Hi. unfold fake.remove_at.
  destruct (Z.ltb_spec i 0), (Z.leb_spec (Z.of_nat (length l)) i); simpl; eauto; lia.
Qed.

Lemma remove_at_length {A} (l l' : list A) (i : Z) :
  fake.remove_at l i = Returns l' → Datatypes.S (length l') = length l.
Proof.
  intros [Hi ->]%remove_at_Returns.
  rewrite length_app, length_take, length_drop. lia.
Qed.

Lemma remove_at_lookup {A} (l l' : list A) (i : Z) (k : nat) :
  fake.remove_at l i = Returns l' →
  l' !! k = l !! (if (k <? Z.to_nat i)%nat then k else Datatypes.S k).
Proof.
  intros [Hi ->]%remove_at_Returns.
  destruct (Nat.ltb_spec k (Z.to_nat i)).
  - rewrite lookup_app_l by (rewrite length_take; lia). by rewrite lookup_take_lt.
  - rewrite lookup_app_r by (rewrite length_take; lia).
    rewrite length_take, lookup_drop. f_equal. lia.
Qed.

Lemma Remove_each_lengths addrs signers (Remove : list Z) addrs' signers' :
  length addrs = length signers →
  fake.Remove_each addrs signers Remove = Returns (addrs', signers') →
  length addrs' = length signers'
  ∧ (length addrs' + length Remove)%nat = length addrs.
Proof.
  revert addrs signers. induction Remove as [|i Remove IH]; intros addrs signers Hlen; simpl.
  - intros [= <- <-]. split; [done|lia].
  - destruct (fake.remove_at addrs i) as [addrs1|] eqn:Ha; [|done].
    destruct (fake.remove_at signers i) as [signers1|] eqn:Hs; [|done].
    apply remove_at_length in Ha, Hs. intros Hrest.
    apply IH in Hrest as [? ?]; [|lia]. split; [done|lia].
Qed.

(** X18. [Apply] on an authority with a signer for every address makes,
    unless it panics, an authority with a signer for every address again,
    as many members as there were, plus the players added, minus the
    positions removed; the change is added to its [Call], when it has
    one.  Without positions to remove it does not panic: the members stay
    in place and the players follow in their order, each under the
    wrapper of its public key. *)
Theorem Apply_keeps_alignment ca (cs : fake.ChangeSet.t F PK) :
  fake.aligned ca →
  (∀ ca', fake.CollectiveAuthority_Apply ca cs = Returns ca' →
     fake.aligned ca'
     ∧ (fake.CollectiveAuthority_Len ca' + Z.of_nat (length (fake.ChangeSet.Remove cs))
        = fake.CollectiveAuthority_Len ca + Z.of_nat (length (fake.ChangeSet.Add cs)))%Z
     ∧ fake.CollectiveAuthority.Call ca'
       = fake.Call_Add (fake.CollectiveAuthority.Call ca)
           [fake.Text "apply"; fake.Changes cs])
  ∧ (fake.ChangeSet.Remove cs = [] →
     fake.CollectiveAuthority_Apply ca cs
     = Returns (fake.CollectiveAuthority.mk
                  (fake.CollectiveAuthority.addrs ca
                   ++ (fake.Player.Address <$> fake.ChangeSet.Add cs))
                  (fake.CollectiveAuthority.signers ca
                   ++ ((λ player, fake.signerWrapper (fake.Player.PublicKey player))
                         <$> fake.ChangeSet.Add cs))
                  (fake.Call_Add (fake.CollectiveAuthority.Call ca)
                     [fake.Text "apply"; fake.Changes cs]))).
Proof.
  unfold fake.aligned, fake.CollectiveAuthority_Apply, fake.CollectiveAuthority_Len.
  intros Hal.
  destruct (Nat.ltb_spec (length (fake.CollectiveAuthority.signers ca))
              (length (fake.CollectiveAuthority.addrs ca))); [lia|].
  rewrite Hal, firstn_all, Nat.sub_diag. simpl. rewrite app_nil_r.
  split.
  - intros ca'.
    destruct (fake.Remove_each _ _ _) as [[addrs' signers']|] eqn:Hrem; [|done].
    intros [= <-]. simpl.
    apply Remove_each_lengths in Hrem as [Heq Hlen].
    + split; [done|]. split; [|done].
      rewrite length_app, length_fmap in Hlen. lia.
    + rewrite !length_app, !length_fmap. lia.
  - by intros ->.
Qed.

(** X19. The positions to remove are taken one after the other, each in
    the list as the removals before it left it: removing [i] and then
    [j], with [i] not above [j], takes out what stood at [i] and at
    [j + 1].  A position outside the list as it then stands makes [Apply]
    panic. *)
Theorem Apply_removes_in_turn ca (i j : nat) :
  fake.aligned ca →
  (∀ ca', (i ≤ j)%nat →
     fake.CollectiveAuthority_Apply ca (fake.ChangeSet.mk [] [Z.of_nat i; Z.of_nat j])
     = Returns ca' →
     ∀ k : nat,
       let from := if (k <? i)%nat then k
                   else if (k <? j)%nat then Datatypes.S k
                        else Datatypes.S (Datatypes.S k) in
       fake.CollectiveAuthority.addrs ca' !! k = fake.CollectiveAuthority.addrs ca !! from
       ∧ fake.CollectiveAuthority.signers ca' !! k
         = fake.CollectiveAuthority.signers ca !! from)
  ∧ (∀ p : Z, (p < 0 ∨ fake.CollectiveAuthority_Len ca ≤ p)%Z →
       ∃ what, fake.CollectiveAuthority_Apply ca (fake.ChangeSet.mk [] [p]) = Panics what).
Proof.
  unfold fake.aligned, fake.CollectiveAuthority_Apply, fake.CollectiveAuthority_Len.
  intros Hal.
  destruct (Nat.ltb_spec (length (fake.CollectiveAuthority.signers ca))
              (length (fake.CollectiveAuthority.addrs ca))); [lia|].
  rewrite Hal, firstn_all, Nat.sub_diag. simpl. rewrite !app_nil_r.
  split.
  - intros ca' Hij.
    destruct (fake.remove_at (fake.CollectiveAuthority.addrs ca) _) as [a1|] eqn:Ha1; [|done].
    destruct (fake.remove_at (fake.CollectiveAuthority.signers ca) _) as [s1|] eqn:Hs1;
      [|done].
    destruct (fake.remove_at a1 _) as [a2|] eqn:Ha2; [|done].
    destruct (fake.remove_at s1 _) as [s2|] eqn:Hs2; [|done].
    intros [= <-] k. simpl.
    rewrite (remove_at_lookup _ _ _ k Ha2), (remove_at_lookup _ _ _ k Hs2).
    rewrite (remove_at_lookup _ _ _ _ Ha1), (remove_at_lookup _ _ _ _ Hs1).
    rewrite !Nat2Z.id.
    destruct (Nat.ltb_spec k j), (Nat.ltb_spec k i); simpl;
      repeat match goal with
             | |- context [(?x <? ?y)%nat] => destruct (Nat.ltb_spec x y)
             end; (done || (exfalso; lia)).
  - intros p Hp.
    destruct (remove_at_Panics (fake.CollectiveAuthority.addrs ca) p) as [what ->]; [|eauto].
    lia.
Qed.

(** X20. A player added to an authority that has no address equal to the
    player's is found again: [GetPublicKey] of its address answers the
    public key the player came with, at the position right after the
    former members. *)
Theorem Apply_adds_player ca (player : fake.Player.t F PK) :
  fake.aligned ca →
  Forall (λ b, fake.mino_Equal b (fake.Player.Address player) = false)
    (fake.CollectiveAuthority.addrs ca) →
  fake.mino_Equal (fake.Player.Address player) (fake.Player.Address player) = true →
  ∃ ca',
    fake.CollectiveAuthority_Apply ca (fake.ChangeSet.mk [player] []) = Returns ca'
    ∧ fake.CollectiveAuthority_GetPublicKey ca' (fake.Player.Address player)
      = Returns (Some (fake.Player.PublicKey player), fake.CollectiveAuthority_Len ca).
Proof.
  unfold fake.aligned, fake.CollectiveAuthority_Apply, fake.CollectiveAuthority_Len,
    fake.CollectiveAuthority_GetPublicKey.
  intros Hal Hnone Hrefl.
  destruct (Nat.ltb_spec (length (fake.CollectiveAuthority.signers ca))
              (length (fake.CollectiveAuthority.addrs ca))); [lia|].
  rewrite Hal, firstn_all, Nat.sub_diag. simpl. rewrite app_nil_r.
  eexists. split; [done|]. simpl.
  rewrite GetPublicKey_from_match by done. rewrite Z.add_0_l, Hal.
  rewrite (at_index_lookup _ _ (fake.signerWrapper (fake.Player.PublicKey player))); [done|].
  by rewrite lookup_app_r, Nat.sub_diag.
Qed.

Lemma Take_each_spec ca (Indices : list Z) :
  (Forall (λ k, (0 ≤ k < Z.of_nat (length (fake.CollectiveAuthority.addrs ca)))%Z
                ∧ (k < Z.of_nat (length (fake.CollectiveAuthority.signers ca)))%Z) Indices →
   ∃ addrs signers,
     fake.Take_each ca Indices = Returns (addrs, signers)
     ∧ length addrs = length Indices ∧ length signers = length Indices
     ∧ ∀ (j : nat) k, Indices !! j = Some k →
         addrs !! j = fake.CollectiveAuthority.addrs ca !! Z.to_nat k
         ∧ signers !! j = fake.CollectiveAuthority.signers ca !! Z.to_nat k)
  ∧ (Exists (λ k, (k < 0 ∨ Z.of_nat (length (fake.CollectiveAuthority.addrs ca)) ≤ k)%Z)
       Indices →
     ∃ what, fake.Take_each ca Indices = Panics what).
Proof.
  split.
  - induction 1 as [|k Indices [Hk Hk'] _ (addrs & signers & IH & Hla & Hls & Hlook)].
    + exists [], []. split; [done|]. split; [done|]. split; [done|].
      intros j k Hj. by rewrite lookup_nil in Hj.
    + simpl.
      destruct (lookup_lt_is_Some_2 (fake.CollectiveAuthority.addrs ca) (Z.to_nat k))
        as [a Ha]; [lia|].
      destruct (lookup_lt_is_Some_2 (fake.CollectiveAuthority.signers ca) (Z.to_nat k))
        as [s Hs]; [lia|].
      rewrite (proj2 (at_index_Returns _ k a)) by (split; [lia|done]).
      rewrite (proj2 (at_index_Returns _ k s)) by (split; [lia|done]).
      rewrite IH. exists (a :: addrs), (s :: signers). simpl.
      split; [done|]. split; [by rewrite Hla|]. split; [by rewrite Hls|].
      intros [|j] k'; simpl; [by intros [= <-]|]. apply Hlook.
  - induction 1 as [k Indices Hk|k Indices _ [what IH]]; simpl.
    + destruct (proj1 (at_index_Panics (fake.CollectiveAuthority.addrs ca) k)) as [what ->];
        eauto.
    + destruct (at_index (fake.CollectiveAuthority.addrs ca) k); [|eauto].
      destruct (at_index (fake.CollectiveAuthority.signers ca) k); [|eauto].
      rewrite IH. eauto.
Qed.

(** X21. [Take] on an authority with a signer for every address, for
    indices that all name a member, makes an authority with a signer for
    every address, as long as the indices are many, whose member at each
    position is the member of the old one that the index at that position
    names, address and signer together; its [Call] is the old one.  An
    index that names no member makes it panic. *)
Theorem Take_picks_members ca (Indices : list Z) :
  fake.aligned ca →
  (Forall (λ k, (0 ≤ k < fake.CollectiveAuthority_Len ca)%Z) Indices →
   ∃ ca',
     fake.CollectiveAuthority_Take ca Indices = Returns ca'
     ∧ fake.aligned ca'
     ∧ fake.CollectiveAuthority_Len ca' = Z.of_nat (length Indices)
     ∧ fake.CollectiveAuthority.Call ca' = fake.CollectiveAuthority.Call ca
     ∧ ∀ (j : nat) k, Indices !! j = Some k →
         fake.CollectiveAuthority.addrs ca' !! j
         = fake.CollectiveAuthority.addrs ca !! Z.to_nat k
         ∧ fake.CollectiveAuthority.signers ca' !! j
           = fake.CollectiveAuthority.signers ca !! Z.to_nat k)
  ∧ (Exists (λ k, (k < 0 ∨ fake.CollectiveAuthority_Len ca ≤ k)%Z) Indices →
     ∃ what, fake.CollectiveAuthority_Take ca Indices = Panics what).
Proof.
  unfold fake.aligned, fake.CollectiveAuthority_Take, fake.CollectiveAuthority_Len.
  intros Hal. destruct (Take_each_spec ca Indices) as [Hok Hpanic]. split.
  - intros Hall. destruct Hok as (addrs & signers & -> & Hla & Hls & Hlook).
    { eapply Forall_impl; [exact Hall|]. intros k Hk. simpl in Hk. lia. }
    eexists. split; [done|]. simpl. split; [by rewrite Hla, Hls|].
    split; [by rewrite Hls|]. split; [done|]. exact Hlook.
  - intros Hex. destruct Hpanic as [what ->]; [|eauto].
    eapply Exists_impl; [exact Hex|]. intros k Hk. simpl in Hk. lia.
Qed.

End Authority.

(** ** The new properties at work *)

Import committee.

Lemma mem_reads_written {Identity} (p : mem.Page Identity) :
  mem.ErrRead p = None → inventory.reads_written p.
Proof.
  intros Hread key instance p'. simpl. unfold mem.Write, mem.Read.
  destruct (mem.ErrWrite p); [done|]. intros [= <-]. simpl.
  by rewrite Hread, lookup_insert_eq.
Qed.

(** An invoke at [k1] before anything was spawned. *)
Lemma invoke_requires_instance_at_k1 :
  mem.Read genesis k1 = Err "instance not found"
  ∧ serverTask.Consume (invoke_coin (-30)) (tx k1 "I1") (fresh genesis)
    = (Err "couldn't read the instance: instance not found",
       mkWorld genesis blank 0 [call.Read k1]).
Proof.
  split; [by vm_compute|].
  exact (invoke_requires_instance (InvokeTask.mk k1 (delta (-30))) registry encoder
           (tx k1 "I1") (fresh genesis) "instance not found" eq_refl).
Defined.

(** The coin at [k1], deleted: it reads back marked, and [I1] still takes
    30 from it. *)
Lemma deleted_coin_stays_live :
  inventory.reads_written (the_page spent)
  ∧ stored spent k1 = Ok (coin_at_k1 A0 70)
  ∧ stored (serverTask.Consume delete_coin (tx k1 "I1") spent).2 k1
    = Ok (Instance.mk k1 "coin" A0 true (balance 70))
  ∧ (let deleted := (serverTask.Consume delete_coin (tx k1 "I1") spent).2 in
     let invoked := serverTask.consumeInvoke (invoke_coin (-30))
                      (InvokeContext.mk (taskContext.mk (tx k1 "I1") (the_page deleted))
                         (InvokeTask.mk k1 (delta (-30))))
                      deleted in
     invoked.1 = Ok 0
     ∧ heap invoked.2 0 = Instance.mk k1 "coin" A0 true (balance 40)).
Proof.
  assert (Hback : inventory.reads_written (the_page spent)) by (by apply mem_reads_written).
  assert (Hrun : serverTask.Consume delete_coin (tx k1 "I1") spent
                 = (Ok tt, (serverTask.Consume delete_coin (tx k1 "I1") spent).2))
    by (by vm_compute).
  pose proof (deleted_instance_stays_live (DeleteTask.mk k1) registry encoder
                (tx k1 "I1") spent _ 0 Hback eq_refl Hrun)
    as (_ & _ & Hstored & _ & _ & Hinvoke).
  split; [exact Hback|]. split; [by vm_compute|]. split; [exact Hstored|].
  pose proof (Hinvoke (InvokeTask.mk k1 (delta (-30))) registry encoder
                (tx k1 "I1") allow_all coin (balance 40)
                eq_refl eq_refl eq_refl eq_refl eq_refl) as Hinvoked.
  split; [exact (f_equal fst Hinvoked)|].
  exact (f_equal (λ run, heap run.2 0) Hinvoked).
Defined.

(** A delete of the coin at [k1] on the page whose writes fail: the error
    of the write is returned, and the coin reads back marked. *)
Lemma failed_delete_marks_coin :
  mem.Read (the_page unwritable) k1 = Ok 0
  ∧ mem.Write k1 0 (the_page unwritable) = (Err "storage failure", the_page unwritable)
  ∧ stored unwritable k1 = Ok (coin_at_k1 A0 70)
  ∧ (serverTask.Consume delete_coin (tx k1 "I1") unwritable).1
    = Err "couldn't write instance to page: storage failure"
  ∧ stored (serverTask.Consume delete_coin (tx k1 "I1") unwritable).2 k1
    = Ok (Instance.mk k1 "coin" A0 true (balance 70)).
Proof.
  split; [by vm_compute|]. split; [by vm_compute|].
  pose proof (failed_write_keeps_assignment registry encoder (tx k1 "I1") unwritable k1 0
                "storage failure" (the_page unwritable) eq_refl eq_refl eq_refl)
    as (Hbefore & Hdelete & _).
  split; [exact Hbefore|]. exact Hdelete.
Defined.

(** A counter of 3 lets three of five packings through. *)
Lemma PackAny_counts_down_from_3 :
  (- 2 ^ 63 + Z.of_nat 5 ≤ 3 < 2 ^ 63)%Z
  ∧ each (replicate 5 fake.BadPackAnyEncoder_PackAny) (fake.NewCounter 3)
    = ([Ok tt; Ok tt; Ok tt; Err "fake error"; Err "fake error"],
       Some (fake.Counter.mk (-2))).
Proof.
  assert (Hv : (- 2 ^ 63 + Z.of_nat 5 ≤ 3 < 2 ^ 63)%Z) by (by vm_compute).
  split; [exact Hv|]. exact (proj1 (PackAny_counts_down 5 3 Hv)).
Defined.

(** An iterator over two addresses, asked three times. *)
Lemma AddressIterator_enumerates_two :
  (Z.of_nat (length [fake.Fake (fake.NewAddress 7) : fake.mino_Address Empty_set;
                     fake.Fake (fake.NewAddress 8)]) < 2 ^ 63)%Z
  ∧ fake.AddressIterator_next 3
      (fake.NewAddressIterator
         [fake.Fake (fake.NewAddress 7) : fake.mino_Address Empty_set;
          fake.Fake (fake.NewAddress 8)])
    = Returns ([Some (fake.Fake (fake.NewAddress 7)); Some (fake.Fake (fake.NewAddress 8));
                None],
               fake.AddressIterator.mk
                 [fake.Fake (fake.NewAddress 7); fake.Fake (fake.NewAddress 8)] 2).
Proof.
  assert (Hlen : (Z.of_nat (length [fake.Fake (fake.NewAddress 7)
                                      : fake.mino_Address Empty_set;
                                    fake.Fake (fake.NewAddress 8)]) < 2 ^ 63)%Z)
    by (by vm_compute).
  split; [exact Hlen|].
  exact (proj1 (AddressIterator_enumerates
                  [fake.Fake (fake.NewAddress 7) : fake.mino_Address Empty_set;
                   fake.Fake (fake.NewAddress 8)] 1 Hlen)).
Defined.

(** The public keys of the three, and nil after them. *)
Lemma PublicKeyIterator_enumerates_trio :
  (Z.of_nat (length (fake.CollectiveAuthority.signers trio)) < 2 ^ 63)%Z
  ∧ fake.PublicKeyIterator_next 4 (fake.CollectiveAuthority_PublicKeyIterator trio)
    = Returns ([Some 100%Z; Some 101%Z; Some 102%Z; None],
               fake.PublicKeyIterator.mk (fake.CollectiveAuthority.signers trio) 3).
Proof.
  assert (Hlen : (Z.of_nat (length (fake.CollectiveAuthority.signers trio)) < 2 ^ 63)%Z)
    by (by vm_compute).
  split; [exact Hlen|].
  refine (proj1 (PublicKeyIterator_enumerates (fake.CollectiveAuthority.signers trio)
                   [100%Z; 101%Z; 102%Z] 1 Hlen) _).
  repeat constructor.
Defined.

(** A newcomer joins the three and the first of them leaves. *)
Lemma Apply_keeps_alignment_of_trio :
  fake.aligned trio
  ∧ ∃ ca', fake.CollectiveAuthority_Apply trio (fake.ChangeSet.mk [newcomer] [0%Z])
           = Returns ca'
           ∧ fake.aligned ca'
           ∧ fake.CollectiveAuthority_Len ca' = 3%Z
           ∧ fake.CollectiveAuthority.Call ca'
             = Some [[fake.Text "apply";
                      fake.Changes (fake.ChangeSet.mk [newcomer] [0%Z])]].
Proof.
  assert (Hal : fake.aligned trio) by (by vm_compute).
  split; [exact Hal|].
  destruct (fake.CollectiveAuthority_Apply trio (fake.ChangeSet.mk [newcomer] [0%Z]))
    as [ca'|what] eqn:Hrun; [|by vm_compute in Hrun].
  exists ca'. split; [done|].
  destruct (proj1 (Apply_keeps_alignment trio (fake.ChangeSet.mk [newcomer] [0%Z]) Hal)
              ca' Hrun) as (Hal' & Hlen & Hcall).
  split; [exact Hal'|]. split; [|exact Hcall].
  change (fake.CollectiveAuthority_Len trio) with 3%Z in Hlen. simpl in Hlen. lia.
Defined.

(** Removing position 0 twice from the three leaves the third. *)
Lemma Apply_removes_first_two_of_trio :
  fake.aligned trio
  ∧ ∃ ca', fake.CollectiveAuthority_Apply trio (fake.ChangeSet.mk [] [0%Z; 0%Z])
           = Returns ca'
           ∧ fake.CollectiveAuthority.addrs ca' !! 0%nat
             = fake.CollectiveAuthority.addrs trio !! 2%nat
           ∧ fake.CollectiveAuthority.signers ca' !! 0%nat
             = fake.CollectiveAuthority.signers trio !! 2%nat.
Proof.
  assert (Hal : fake.aligned trio) by (by vm_compute).
  split; [exact Hal|].
  destruct (fake.CollectiveAuthority_Apply trio (fake.ChangeSet.mk [] [0%Z; 0%Z]))
    as [ca'|what] eqn:Hrun; [|by vm_compute in Hrun].
  exists ca'. split; [done|].
  exact (proj1 (Apply_removes_in_turn trio 0 0 Hal) ca' (le_n 0) Hrun 0%nat).
Defined.

(** The newcomer is found after the three. *)
Lemma Apply_adds_newcomer_to_trio :
  fake.aligned trio
  ∧ ∃ ca', fake.CollectiveAuthority_Apply trio (fake.ChangeSet.mk [newcomer] [])
           = Returns ca'
           ∧ fake.CollectiveAuthority_GetPublicKey ca' (fake.Fake (fake.NewAddress 7))
             = Returns (Some 700%Z, 3%Z).
Proof.
  assert (Hal : fake.aligned trio) by (by vm_compute).
  split; [exact Hal|].
  refine (Apply_adds_player trio newcomer Hal _ eq_refl).
  by repeat constructor.
Defined.

(** The last and the first of the three, in that order. *)
Lemma Take_picks_two_of_trio :
  fake.aligned trio
  ∧ ∃ ca', fake.CollectiveAuthority_Take trio [2%Z; 0%Z] = Returns ca'
           ∧ fake.aligned ca'
           ∧ fake.CollectiveAuthority_Len ca' = 2%Z
           ∧ fake.CollectiveAuthority.Call ca' = Some []
           ∧ ∀ (j : nat) k, [2%Z; 0%Z] !! j = Some k →
               fake.CollectiveAuthority.addrs ca' !! j
               = fake.CollectiveAuthority.addrs trio !! Z.to_nat k
               ∧ fake.CollectiveAuthority.signers ca' !! j
                 = fake.CollectiveAuthority.signers trio !! Z.to_nat k.
Proof.
  assert (Hal : fake.aligned trio) by (by vm_compute).
  split; [exact Hal|].
  refine (proj1 (Take_picks_members trio [2%Z; 0%Z] Hal) _).
  repeat constructor; by vm_compute.
Defined.

(** With a factory in which nothing was registered, the spawn of the coin
    finds no contract. *)
Lemma spawn_with_new_factory :
  is_ok (mem.Read genesis k1) = false
  ∧ serverTask.consumeSpawn
      (serverTask.mk (basic.Spawn (SpawnTask.mk "coin" empty))
         (TaskFactory.contracts (TaskFactory.NewTaskFactory encoder)) encoder)
      (SpawnContext.mk (taskContext.mk (tx k1 "I1") genesis) (SpawnTask.mk "coin" empty))
      (fresh genesis)
    = (Err "contract 'coin' not found", mkWorld genesis blank 0 [call.Read k1]).
Proof.
  split; [by vm_compute|].
  exact (proj2 (spawn_resolves_registered (TaskFactory.NewTaskFactory encoder)
                  (SpawnTask.mk "coin" empty) coin encoder
                  (SpawnContext.mk (taskContext.mk (tx k1 "I1") genesis)
                     (SpawnTask.mk "coin" empty))
                  (fresh genesis)) eq_refl).
Defined.

(** On a hash that fails after one write, with the encoder that fails,
    the spawn of the coin gets its contract identifier through and fails
    on the argument, and a delete succeeds; on a hash that fails at once
    the spawn fails on the contract identifier. *)
Lemma Fingerprint_on_Hash_with_delay_1 :
  SpawnTask.Fingerprint (SpawnTask.mk "coin" (delta 5)) (fake.BadMarshalStableEncoder message)
    (fake.NewBadHashWithDelay 1)
  = (Err "couldn't write argument: fake error", fake.NewBadHash)
  ∧ DeleteTask.Fingerprint (DeleteTask.mk k1) encoder (fake.NewBadHashWithDelay 1)
    = (Ok tt, fake.NewBadHash)
  ∧ SpawnTask.Fingerprint (SpawnTask.mk "coin" (delta 5)) encoder fake.NewBadHash
    = (Err "couldn't write contract: fake error", fake.NewBadHash).
Proof.
  split; [|split].
  - exact (proj1 (Fingerprint_on_Hash (fake.BadMarshalStableEncoder message)
                    (fake.NewBadHashWithDelay 1))
             (SpawnTask.mk "coin" (delta 5))).
  - exact (proj2 (proj2 (Fingerprint_on_Hash encoder (fake.NewBadHashWithDelay 1)))
             (DeleteTask.mk k1)).
  - exact (proj1 (Fingerprint_on_Hash encoder fake.NewBadHash)
             (SpawnTask.mk "coin" (delta 5))).
Defined.

(** An iterator over the three, sent to position 1 and to position -1. *)
Lemma AddressIterator_Seek_on_trio :
  fake.AddressIterator_GetNext
    (fake.AddressIterator_Seek (fake.CollectiveAuthority_AddressIterator trio) 1)
  = Returns (Some (fake.Fake (fake.NewAddress 1)),
             fake.AddressIterator_Seek (fake.CollectiveAuthority_AddressIterator trio) 2)
  ∧ fake.AddressIterator_HasNext
      (fake.AddressIterator_Seek (fake.CollectiveAuthority_AddressIterator trio) (-1)) = true
  ∧ ∃ what, fake.AddressIterator_GetNext
              (fake.AddressIterator_Seek (fake.CollectiveAuthority_AddressIterator trio) (-1))
            = Panics what.
Proof.
  split.
  - refine (proj2 (proj1 (AddressIterator_Seek_positions
                            (fake.CollectiveAuthority_AddressIterator trio) 1)
                     (fake.Fake (fake.NewAddress 1)) _ eq_refl)).
    by vm_compute.
  - refine (proj2 (proj2 (AddressIterator_Seek_positions
                            (fake.CollectiveAuthority_AddressIterator trio) (-1))) _).
    by vm_compute.
Defined.

(** The second of the three is found at position 1. *)
Lemma GetPublicKey_of_second_of_trio :
  fake.CollectiveAuthority_GetPublicKey trio (fake.Fake fake.NewBadAddress)
  = Returns (Some 100%Z, 0%Z)
  ∧ fake.CollectiveAuthority_GetPublicKey trio (fake.Fake (fake.NewAddress 1))
    = Returns (Some 101%Z, 1%Z)
  ∧ fake.CollectiveAuthority_GetPublicKey trio (fake.Fake (fake.NewAddress 3))
    = Returns (None, (-1)%Z).
Proof.
  split; [|split].
  - refine (proj1 (GetPublicKey_first_match trio (fake.Fake fake.NewBadAddress))
              [] (fake.Fake (fake.NewAddress 0))
              [fake.Fake (fake.NewAddress 1); fake.Fake (fake.NewAddress 2)]
              (fake.Generated 0%nat) eq_refl _ eq_refl eq_refl).
    constructor.
  - refine (proj1 (GetPublicKey_first_match trio (fake.Fake (fake.NewAddress 1)))
              [fake.Fake (fake.NewAddress 0)] (fake.Fake (fake.NewAddress 1))
              [fake.Fake (fake.NewAddress 2)]
              (fake.Generated 1%nat) eq_refl _ eq_refl eq_refl).
    by repeat constructor.
  - refine (proj2 (GetPublicKey_first_match trio (fake.Fake (fake.NewAddress 3))) _).
    by repeat constructor.
Defined.

(** An authority of three from index 5 on. *)
Lemma NewAuthorityWithBase_three_from_5 :
  ∃ ca : authority,
    fake.NewAuthorityWithBase 5 3 next_signer 0%nat = Returns (ca, 3%nat)
    ∧ fake.aligned ca
    ∧ fake.CollectiveAuthority_Len ca = 3%Z
    ∧ fake.CollectiveAuthority_GetAddress ca 1 = Returns (fake.Fake (fake.NewAddress 6))
    ∧ fake.CollectiveAuthority_GetPublicKey ca
        (fake.Fake (fake.Address.mk 6 (Some "fake error")))
      = Returns (Some 101%Z, 1%Z)
    ∧ fake.CollectiveAuthority_GetPublicKey ca (fake.Fake (fake.NewAddress 8))
      = Returns (None, (-1)%Z).
Proof.
  destruct (proj2 (NewAuthorityWithBase_members (F:=Empty_set) (PK:=Z) 5 3 next_signer 0%nat))
    as (ca & Hnew & Hal & Hlen & _ & Hin & Hout); [by vm_compute..|].
  exists ca. split; [exact Hnew|]. split; [exact Hal|]. split; [exact Hlen|].
  destruct (Hin 1%nat 1%nat (Some "fake error") eq_refl) as [Haddr Hkey].
  split; [exact Haddr|]. split; [exact Hkey|].
  apply Hout. right. by vm_compute.
Defined.

(** X22. [NewAuthorityFromMino] makes an authority with a signer for
    every address, of as many members as there are instances: the address
    at each position is the address of the instance at that position, the
    signer there is the one the generator made at that turn, and the
    generator was called once for every instance. *)
Theorem NewAuthorityFromMino_members {F G S PK I} (GetAddress : I → fake.mino_Address F)
    (g : G → S * G) (instances : list I) (γ : G) :
  let made := fake.NewAuthorityFromMino (PK:=PK) GetAddress g instances γ in
  fake.aligned made.1
  ∧ fake.CollectiveAuthority_Len made.1 = Z.of_nat (length instances)
  ∧ made.2 = (fake.generate g (length instances) γ).2
  ∧ (∀ (k : nat) instance,
       instances !! k = Some instance →
       fake.CollectiveAuthority_GetAddress made.1 (Z.of_nat k)
       = Returns (GetAddress instance)
       ∧ ∃ s, (fake.generate g (length instances) γ).1 !! k = Some s
              ∧ fake.CollectiveAuthority_GetSigner made.1 (Z.of_nat k)
                = Returns (fake.Generated s)).
Proof.
  intros made. subst made. unfold fake.NewAuthorityFromMino.
  pose proof (generate_length g (length instances) γ) as Hlen.
  destruct (fake.generate g (length instances) γ) as [ss γ1]. simpl in *.
  unfold fake.aligned, fake.CollectiveAuthority_Len, fake.CollectiveAuthority_GetAddress,
    fake.CollectiveAuthority_GetSigner. simpl.
  rewrite !length_fmap, Hlen. split; [done|]. split; [done|]. split; [done|].
  intros k instance Hk. split.
  - apply at_index_lookup. by rewrite list_lookup_fmap, Hk.
  - destruct (lookup_lt_is_Some_2 ss k) as [s Hs].
    { apply lookup_lt_Some in Hk. lia. }
    exists s. split; [done|]. apply at_index_lookup. by rewrite list_lookup_fmap, Hs.
Qed.
